(** * Auto Editor front end: edit-decision engine and workflow

    A shallow embedding of the React front end of the auto-editor
    repository: [App.jsx] (workflow), [EditorScreen.jsx] (segment store,
    stats, seek), [Timeline.jsx] (timeline click) and [Transcript.jsx]
    (word display).

    JavaScript numbers are IEEE 754 binary64 values; they are modelled by
    Rocq's primitive floats, which are the same format with the same
    rounding.  Component state held by a React hook is a record field;
    a state setter is a record update; a component that is not rendered
    has no state. *)

From Stdlib Require Import Floats ZArith List Bool String Lia.
From Stdlib Require Import Permutation.
Import ListNotations.

(* Decimal literals stand for the nearest binary64 number, as in JavaScript. *)
Set Warnings "-inexact-float".

(* ================================================================== *)
(** ** The order of binary64 numbers *)
(* ================================================================== *)

Module FloatOrder.

Local Open Scope Z_scope.

(** A rank for every number that is not NaN: the comparison of two
    numbers is the lexicographic comparison of their ranks. *)
Definition rank (x : spec_float) : option (Z * Z * Z) :=
  match x with
  | S754_nan => None
  | S754_infinity true => Some (-2, 0, 0)
  | S754_infinity false => Some (2, 0, 0)
  | S754_zero _ => Some (0, 0, 0)
  | S754_finite true m e => Some (-1, - e, - Z.pos m)
  | S754_finite false m e => Some (1, e, Z.pos m)
  end.

Definition lex_le (p q : Z * Z * Z) : Prop :=
  let '(a, b, c) := p in
  let '(a', b', c') := q in
  a < a' \/ (a = a' /\ (b < b' \/ (b = b' /\ c <= c'))).

Definition lex_lt (p q : Z * Z * Z) : Prop :=
  let '(a, b, c) := p in
  let '(a', b', c') := q in
  a < a' \/ (a = a' /\ (b < b' \/ (b = b' /\ c < c'))).

Definition le (x y : float) : Prop :=
  exists p q, rank (Prim2SF x) = Some p /\ rank (Prim2SF y) = Some q /\ lex_le p q.

Definition lt (x y : float) : Prop :=
  exists p q, rank (Prim2SF x) = Some p /\ rank (Prim2SF y) = Some q /\ lex_lt p q.

End FloatOrder.


(* ================================================================== *)
(** ** JavaScript operators used by the components *)
(* ================================================================== *)

Module JS.

Local Open Scope float_scope.

(** [x >= y] and [x <= y] on numbers: false as soon as one side is NaN. *)
Definition ge (x y : float) : bool := y <=? x.
Definition le (x y : float) : bool := x <=? y.

Definition is_neg_zero (x : float) : bool :=
  match classify x with NZero => true | _ => false end.

(** [Math.min(x, y)]: NaN if an argument is NaN; -0 is below +0. *)
Definition Math_min (x y : float) : float :=
  if is_nan x || is_nan y then nan
  else if x <? y then x
  else if y <? x then y
  else if is_neg_zero x then x else y.

(** [Math.max(x, y)]: NaN if an argument is NaN; +0 is above -0. *)
Definition Math_max (x y : float) : float :=
  if is_nan x || is_nan y then nan
  else if x <? y then y
  else if y <? x then x
  else if is_neg_zero x then y else x.

(** Truthiness of a number: 0, -0 and NaN are falsy. *)
Definition truthy (x : float) : bool := negb (is_nan x || is_zero x).

(** [v || d] where [v] is a number that may be missing. *)
Definition or_number (v : option float) (d : float) : float :=
  match v with
  | Some x => if truthy x then x else d
  | None => d
  end.

(** [v || d] where [v] is a string that may be missing; the empty
    string is falsy. *)
Definition or_string (v : option string) (d : string) : string :=
  match v with
  | Some EmptyString => d
  | Some x => x
  | None => d
  end.

(** [v || []] where [v] is an array that may be missing. *)
Definition or_array {A : Type} (v : option (list A)) : list A :=
  match v with
  | Some l => l
  | None => []
  end.

(** [l.map((x, i) => f x i)]. *)
Fixpoint mapi_from {A B : Type} (f : A -> nat -> B) (i : nat) (l : list A) : list B :=
  match l with
  | [] => []
  | x :: r => f x i :: mapi_from f (S i) r
  end.

Definition mapi {A B : Type} (f : A -> nat -> B) (l : list A) : list B :=
  mapi_from f 0 l.

(** [l.some(p)]. *)
Definition some {A : Type} (p : A -> bool) (l : list A) : bool := existsb p l.

(** [l.reduce(f, init)]. *)
Definition reduce {A B : Type} (f : B -> A -> B) (init : B) (l : list A) : B :=
  fold_left f l init.

End JS.

(* ================================================================== *)
(** ** Data: segments, words, analysis result *)
(* ================================================================== *)

(** A segment of the analysis result; [end_] is the field [end]. *)
Record Segment : Type := {
  start : float;
  end_ : float;
  keep : bool;
  is_silence : bool;
  text : option string
}.

(** A transcript word. *)
Record Word : Type := {
  word_text : string;
  word_start : float;
  word_end : float
}.

(** The analysis result held as [projectData]; a field of the response
    may be missing. *)
Record ProjectData : Type := {
  duration : option float;
  pd_segments : option (list Segment);
  transcript : option (list Word)
}.

(* ================================================================== *)
(** ** EditorScreen.jsx *)
(* ================================================================== *)

(** The media element a ref points to. *)
Record Video : Type := {
  video_currentTime : float;
  video_paused : bool
}.

Inductive Tab : Type := timeline | transcript_tab.

(** The hooks of one mounted EditorScreen. *)
Record EditorState : Type := {
  segments : list Segment;
  currentTime : float;
  isPlaying : bool;
  activeTab : Tab;
  videoRef : option Video
}.

Definition setSegments (f : list Segment -> list Segment) (es : EditorState) : EditorState :=
  {| segments := f (segments es);
     currentTime := currentTime es;
     isPlaying := isPlaying es;
     activeTab := activeTab es;
     videoRef := videoRef es |}.

(** The first render: [useState(projectData.segments || [])],
    [useState(0)], [useState(false)], [useState('timeline')],
    [useRef(null)]. *)
Definition mountEditor (projectData : ProjectData) : EditorState :=
  {| segments := JS.or_array (pd_segments projectData);
     currentTime := 0%float;
     isPlaying := false;
     activeTab := timeline;
     videoRef := None |}.

(** [{ ...seg, keep: !seg.keep }]. *)
Definition flipKeep (seg : Segment) : Segment :=
  {| start := start seg;
     end_ := end_ seg;
     keep := negb (keep seg);
     is_silence := is_silence seg;
     text := text seg |}.

(** [prev.map((seg, i) => i === index ? { ...seg, keep: !seg.keep } : seg)].
    [map] builds a new array and the spread a new object: neither [prev]
    nor the analysis result is written to.  The index is an integer; any
    integer may be passed. *)
Definition toggleSegment_list (index : Z) (prev : list Segment) : list Segment :=
  JS.mapi (fun seg i => if (Z.of_nat i =? index)%Z then flipKeep seg else seg) prev.

Definition toggleSegment (index : Z) : EditorState -> EditorState :=
  setSegments (toggleSegment_list index).

(** [seg.start >= startTime && seg.end <= endTime]. *)
Definition inRange (startTime endTime : float) (seg : Segment) : bool :=
  JS.ge (start seg) startTime && JS.le (end_ seg) endTime.

(** [prev.map(seg => inRange ? { ...seg, keep: !seg.keep } : seg)]. *)
Definition toggleWordRange_list (startTime endTime : float) (prev : list Segment) : list Segment :=
  map (fun seg => if inRange startTime endTime seg then flipKeep seg else seg) prev.

Definition toggleWordRange (startTime endTime : float) : EditorState -> EditorState :=
  setSegments (toggleWordRange_list startTime endTime).

(** [setSegments(projectData.segments || [])]. *)
Definition resetEdits (projectData : ProjectData) : EditorState -> EditorState :=
  setSegments (fun _ => JS.or_array (pd_segments projectData)).

(** [if (videoRef.current) { videoRef.current.currentTime = time;
    setCurrentTime(time) }]. *)
Definition seekTo (time : float) (es : EditorState) : EditorState :=
  match videoRef es with
  | Some v =>
      {| segments := segments es;
         currentTime := time;
         isPlaying := isPlaying es;
         activeTab := activeTab es;
         videoRef := Some {| video_currentTime := time;
                             video_paused := video_paused v |} |}
  | None => es
  end.

(** Stats, recomputed at every render. *)
Definition totalDuration (projectData : ProjectData) : float :=
  JS.or_number (duration projectData) 0%float.

(** [segments.filter(s => s.keep).reduce((acc, s) => acc + (s.end - s.start), 0)]. *)
Definition keptDuration (es : EditorState) : float :=
  JS.reduce (fun acc s => (acc + (end_ s - start s))%float) 0%float
            (filter (fun s => keep s) (segments es)).

Definition removedDuration (projectData : ProjectData) (es : EditorState) : float :=
  (totalDuration projectData - keptDuration es)%float.

(** A user edit of the segment store and its effect. *)
Inductive Edit : Type :=
| toggle (index : Z)
| toggleRange (rangeStart rangeEnd : float).

Definition applyEdit (es : EditorState) (e : Edit) : EditorState :=
  match e with
  | toggle index => toggleSegment index es
  | toggleRange rangeStart rangeEnd => toggleWordRange rangeStart rangeEnd es
  end.

Definition applyEdits (edits : list Edit) (es : EditorState) : EditorState :=
  fold_left applyEdit edits es.

(* ================================================================== *)
(** ** Timeline.jsx *)
(* ================================================================== *)

(** What the click handler reads off the element under [timelineRef]:
    [getBoundingClientRect().left] and [scrollLeft]. *)
Record TimelineElement : Type := {
  rect_left : float;
  scrollLeft : float
}.

Definition pixelsPerSecond (scale : float) : float := (50 * scale)%float.

(** The time [handleTimelineClick] passes to [onSeek], if it calls it. *)
Definition handleTimelineClick (timelineRef : option TimelineElement)
    (scale duration clientX : float) : option float :=
  match timelineRef with
  | None => None
  | Some el =>
      let x := (clientX - rect_left el + scrollLeft el)%float in
      let time := (x / pixelsPerSecond scale)%float in
      Some (JS.Math_max 0%float (JS.Math_min time duration))
  end.

(** A click on the timeline of a mounted editor: [duration] is
    [totalDuration], [onSeek] is [seekTo]. *)
Definition timelineClick (projectData : ProjectData)
    (timelineRef : option TimelineElement) (scale clientX : float)
    (es : EditorState) : EditorState :=
  match handleTimelineClick timelineRef scale (totalDuration projectData) clientX with
  | Some time => seekTo time es
  | None => es
  end.

(* ================================================================== *)
(** ** Transcript.jsx *)
(* ================================================================== *)

Record Range : Type := {
  range_start : float;
  range_end : float
}.

Definition removedRanges (segs : list Segment) : list Range :=
  map (fun s => {| range_start := start s; range_end := end_ s |})
      (filter (fun s => negb (keep s)) segs).

Definition isWordRemoved (segs : list Segment) (wstart wend : float) : bool :=
  JS.some (fun range => JS.ge wstart (range_start range) && JS.le wend (range_end range))
          (removedRanges segs).

(* ================================================================== *)
(** ** App.jsx: the workflow *)
(* ================================================================== *)

Inductive Screen : Type := upload | processing | editor.

Record AppState : Type := {
  screen : Screen;
  projectId : option string;
  projectData : option ProjectData;
  error : option string
}.

(** What the catch blocks read of a rejection: [err.response?.data?.detail]
    and [err.message]. *)
Record ApiError : Type := {
  detail : option string;
  message : option string
}.

(** How an awaited collaborator call settles. *)
Inductive Outcome (A : Type) : Type :=
| resolved (value : A)
| rejected (err : ApiError).
Arguments resolved {A} value.
Arguments rejected {A} err.

Record UploadResult : Type := { project_id : string }.
Record ExportResult : Type := { download_url : string }.

(** [err.response?.data?.detail || err.message || fallback]. *)
Definition errorMessage (err : ApiError) (fallback : string) : string :=
  JS.or_string (detail err) (JS.or_string (message err) fallback).

(** The App hooks together with the EditorScreen instance that is
    mounted, if one is. *)
Record World : Type := {
  app : AppState;
  editorScreen : option EditorState
}.

(** One render of App: EditorScreen is rendered when
    [screen === 'editor' && projectData]; an instance that stays rendered
    keeps its hooks, a new one runs its first render, and one that is no
    longer rendered is unmounted with its hooks. *)
Definition render (a : AppState) (mounted : option EditorState) : option EditorState :=
  match screen a, projectData a with
  | editor, Some pd =>
      match mounted with
      | Some es => Some es
      | None => Some (mountEditor pd)
      end
  | _, _ => None
  end.

(** App state is set and the tree is rendered again. *)
Definition commit (a : AppState) (w : World) : World :=
  {| app := a; editorScreen := render a (editorScreen w) |}.

Definition initialWorld : World :=
  {| app := {| screen := upload; projectId := None; projectData := None; error := None |};
     editorScreen := None |}.

(** [handleUpload]: the state is committed before each await and after
    the call settles. *)
Definition handleUpload (uploadVideos : Outcome UploadResult)
    (analyzeVideo : Outcome ProjectData) (w : World) : World :=
  let a0 := app w in
  let a1 := {| screen := processing; projectId := projectId a0;
               projectData := projectData a0; error := None |} in
  let w1 := commit a1 w in
  match uploadVideos with
  | rejected err =>
      commit {| screen := upload; projectId := projectId a1;
                projectData := projectData a1;
                error := Some (errorMessage err "Upload failed") |} w1
  | resolved uploadResult =>
      let a2 := {| screen := screen a1;
                   projectId := Some (project_id uploadResult);
                   projectData := projectData a1; error := error a1 |} in
      let w2 := commit a2 w1 in
      match analyzeVideo with
      | rejected err =>
          commit {| screen := upload; projectId := projectId a2;
                    projectData := projectData a2;
                    error := Some (errorMessage err "Upload failed") |} w2
      | resolved analyzeResult =>
          commit {| screen := editor; projectId := projectId a2;
                    projectData := Some analyzeResult; error := error a2 |} w2
      end
  end.

(** [handleExport]: persist the segments, then export; on success the
    download is opened and a timer resets the App two seconds later. *)
Definition handleExport (segs : list Segment) (updateSegments : Outcome unit)
    (exportVideo : Outcome ExportResult) (w : World) : World :=
  let a0 := app w in
  let a1 := {| screen := processing; projectId := projectId a0;
               projectData := projectData a0; error := None |} in
  let w1 := commit a1 w in
  let failed err :=
    commit {| screen := editor; projectId := projectId a1;
              projectData := projectData a1;
              error := Some (errorMessage err "Export failed") |} w1 in
  match updateSegments with
  | rejected err => failed err
  | resolved _ =>
      match exportVideo with
      | rejected err => failed err
      | resolved _ =>
          commit {| screen := upload; projectId := None;
                    projectData := None; error := error a1 |} w1
      end
  end.

(** [handleReset]: the delete request is sent and forgotten. *)
Definition handleReset (w : World) : World :=
  commit {| screen := upload; projectId := None; projectData := None; error := None |} w.

(** The banner's Dismiss button. *)
Definition dismissError (w : World) : World :=
  commit {| screen := screen (app w); projectId := projectId (app w);
            projectData := projectData (app w); error := None |} w.

(** What the user can do, with the way the collaborator calls it starts
    settle. *)
Inductive Event : Type :=
| submit (files : list string) (silenceThreshold : float)
         (uploadVideos : Outcome UploadResult) (analyzeVideo : Outcome ProjectData)
| edit (e : Edit)
| seek (time : float)
| undoEdits
| export (updateSegments : Outcome unit) (exportVideo : Outcome ExportResult)
| reset
| dismiss.

Definition inEditor (f : ProjectData -> EditorState -> EditorState) (w : World) : World :=
  match editorScreen w, projectData (app w) with
  | Some es, Some pd => {| app := app w; editorScreen := Some (f pd es) |}
  | _, _ => w
  end.

(** A control acts only while the screen that shows it is rendered. *)
Definition step (w : World) (ev : Event) : World :=
  match ev with
  | submit files silenceThreshold uploadVideos analyzeVideo =>
      match screen (app w), files with
      | upload, _ :: _ => handleUpload uploadVideos analyzeVideo w
      | _, _ => w
      end
  | edit e => inEditor (fun _ es => applyEdit es e) w
  | seek time => inEditor (fun _ es => seekTo time es) w
  | undoEdits => inEditor resetEdits w
  | export updateSegments exportVideo =>
      match editorScreen w with
      | Some es => handleExport (segments es) updateSegments exportVideo w
      | None => w
      end
  | reset =>
      match editorScreen w with
      | Some _ => handleReset w
      | None => w
      end
  | dismiss =>
      match error (app w) with
      | Some _ => dismissError w
      | None => w
      end
  end.

Definition run (evs : list Event) (w : World) : World := fold_left step evs w.

Definition reachable (w : World) : Prop := exists evs, w = run evs initialWorld.

(* ================================================================== *)
(** ** The words of the specification *)
(* ================================================================== *)

(** The fields of a segment that no edit may change. *)
Definition frame (seg : Segment) : float * float * bool * option string :=
  (start seg, end_ seg, is_silence seg, text seg).

(** The range of [seg] lies inside [[rangeStart, rangeEnd]]: both of its
    ends do. *)
Definition contained (rangeStart rangeEnd : float) (seg : Segment) : Prop :=
  (rangeStart <=? start seg)%float = true /\ (end_ seg <=? rangeEnd)%float = true.

(** One removed segment encloses the word from [wstart] to [wend]. *)
Definition enclosedByOne (segs : list Segment) (wstart wend : float) : Prop :=
  exists s, In s segs /\ keep s = false /\
            (start s <=? wstart)%float = true /\ (wend <=? end_ s)%float = true.

(** The removed segments together enclose the word: every instant of
    [[wstart, wend)] lies in the range of a removed segment. *)
Definition enclosedByRemoved (segs : list Segment) (wstart wend : float) : Prop :=
  forall t : float,
    (wstart <=? t)%float = true -> (t <? wend)%float = true ->
    exists s, In s segs /\ keep s = false /\
              (start s <=? t)%float = true /\ (t <=? end_ s)%float = true.

(** The sum of [end - start] over the kept segments, added up in list
    order from [acc]. *)
Fixpoint sumKeptFrom (acc : float) (segs : list Segment) : float :=
  match segs with
  | [] => acc
  | s :: r =>
      if keep s then sumKeptFrom (acc + (end_ s - start s))%float r
      else sumKeptFrom acc r
  end.

(** The workflow states of the specification, read off the App hooks. *)
Inductive WorkflowState : Type := Idle | InFlight | Editing.

Definition workflowState (w : World) : WorkflowState :=
  match screen (app w) with
  | upload => Idle
  | processing => InFlight
  | editor => Editing
  end.

(** The position last requested of the media element, if one is attached. *)
Definition requestedPosition (es : EditorState) : option float :=
  option_map video_currentTime (videoRef es).

(** What holds of App and the mounted editor between two events. *)
Definition settled (w : World) : Prop :=
  match screen (app w) with
  | upload => projectData (app w) = None /\ editorScreen w = None
  | processing => False
  | editor =>
      exists pd es, projectData (app w) = Some pd /\ editorScreen w = Some es
  end.

(** The editor as App mounts it: EditorScreen renders no media element, so
    nothing is ever put under [videoRef] and no time update arrives. *)
Definition detached (w : World) : Prop :=
  match editorScreen w with
  | Some es => videoRef es = None /\ currentTime es = 0%float
  | None => True
  end.

(* ================================================================== *)
(** ** Sample data *)
(* ================================================================== *)

Definition segment (s e : float) (k silent : bool) : Segment :=
  {| start := s; end_ := e; keep := k; is_silence := silent; text := None |}.

(** The scenario of the specification: ten seconds in three segments. *)
Definition tenSeconds : ProjectData :=
  {| duration := Some 10%float;
     pd_segments := Some [segment 0 4 true false;
                          segment 4 6 true true;
                          segment 6 10 true false];
     transcript := Some [{| word_text := "hello"; word_start := 1.0; word_end := 1.4 |}] |}.

(** Nine tenths of a second in two segments. *)
Definition shortClip : ProjectData :=
  {| duration := Some 0.9%float;
     pd_segments := Some [segment 0 0.2 true false;
                          segment 0.2 0.9 true true];
     transcript := None |}.

(** A rejection as the HTTP client reports a dropped connection. *)
Definition networkError : ApiError :=
  {| detail := None; message := Some "Network Error"%string |}.

(** The editor on [tenSeconds] after a successful upload and analysis,
    with the silence from 4 to 6 toggled off. *)
Definition editedWorld : World :=
  run [submit ["clip.mp4"%string] 1%float
              (resolved {| project_id := "p1"%string |}) (resolved tenSeconds);
       edit (toggle 1)]
      initialWorld.

(* ================================================================== *)
(** ** Timeline.jsx: zoom, blocks and list items *)
(* ================================================================== *)

(** The zoom buttons: [setScale(s => Math.max(0.5, s - 0.25))] and
    [setScale(s => Math.min(3, s + 0.25))]; the scale starts at 1. *)
Definition zoomOut (s : float) : float := JS.Math_max 0.5 (s - 0.25)%float.
Definition zoomIn (s : float) : float := JS.Math_min 3 (s + 0.25)%float.

Inductive ZoomClick : Type := minusButton | plusButton.

Definition zoomClick (s : float) (c : ZoomClick) : float :=
  match c with
  | minusButton => zoomOut s
  | plusButton => zoomIn s
  end.

Definition initialScale : float := 1%float.

Definition scaleAfter (clicks : list ZoomClick) : float :=
  fold_left zoomClick clicks initialScale.

(** [Math.max(duration * pixelsPerSecond, 300)]. *)
Definition timelineWidth (duration scale : float) : float :=
  JS.Math_max (duration * pixelsPerSecond scale)%float 300.

(** TimelineSegment: the block is drawn [Math.max(width, 4)] wide, where
    [width = (segment.end - segment.start) * pixelsPerSecond]. *)
Definition blockWidth (seg : Segment) (scale : float) : float :=
  JS.Math_max ((end_ seg - start seg) * pixelsPerSecond scale)%float 4.

(** [{ ...seg, originalIndex: index }]. *)
Record GroupedSegment : Type := {
  grouped : Segment;
  originalIndex : nat
}.

(** [segments.map((seg, index) => ({ ...seg, originalIndex: index }))]. *)
Definition groupSegments (segs : list Segment) : list GroupedSegment :=
  JS.mapi (fun seg index => {| grouped := seg; originalIndex := index |}) segs.

(** A click on the [k]-th block of the timeline:
    [onToggleSegment(segment.originalIndex)] of the [k]-th grouped segment. *)
Definition timelineBlockClick (k : nat) (es : EditorState) : EditorState :=
  match nth_error (groupSegments (segments es)) k with
  | Some g => toggleSegment (Z.of_nat (originalIndex g)) es
  | None => es
  end.

(** A click on the toggle button of the [k]-th item of the segment list:
    [onToggleSegment(index)]. *)
Definition listItemClick (k : nat) (es : EditorState) : EditorState :=
  match nth_error (segments es) k with
  | Some _ => toggleSegment (Z.of_nat k) es
  | None => es
  end.

(* ================================================================== *)
(** ** Transcript.jsx: playing word and selection gesture *)
(* ================================================================== *)

(** [currentTime >= start && currentTime <= end]. *)
Definition isWordPlaying (now wstart wend : float) : bool :=
  JS.ge now wstart && JS.le now wend.

(** The hooks of Transcript.  [touchTimer] is the ref; [pendingTimers] are
    the timeouts the browser still holds, each with the word its callback
    will long-press, and [nextTimer] is the identifier the next
    [setTimeout] returns (identifiers are positive). *)
Record TranscriptState : Type := {
  selectionStart : option Word;
  selectionEnd : option Word;
  isSelecting : bool;
  touchTimer : option positive;
  pendingTimers : list (positive * Word);
  nextTimer : positive
}.

Definition initialTranscript : TranscriptState :=
  {| selectionStart := None; selectionEnd := None; isSelecting := false;
     touchTimer := None; pendingTimers := []; nextTimer := 1%positive |}.

(** What Transcript asks of its parent. *)
Inductive Callback : Type :=
| onToggleRange (rangeStart rangeEnd : float)
| onSeek (time : float).

Definition setSelection (a f : option Word) (selecting : bool)
    (ts : TranscriptState) : TranscriptState :=
  {| selectionStart := a; selectionEnd := f; isSelecting := selecting;
     touchTimer := touchTimer ts; pendingTimers := pendingTimers ts;
     nextTimer := nextTimer ts |}.

(** [setIsSelecting(true); setSelectionStart(word); setSelectionEnd(word)]. *)
Definition handleWordLongPress (word : Word) (ts : TranscriptState) : TranscriptState :=
  setSelection (Some word) (Some word) true ts.

(** [if (isSelecting && selectionStart) setSelectionEnd(word)]. *)
Definition handleWordHover (word : Word) (ts : TranscriptState) : TranscriptState :=
  match isSelecting ts, selectionStart ts with
  | true, Some a => setSelection (Some a) (Some word) true ts
  | _, _ => ts
  end.

(** [Math.min(selectionStart.start, selectionEnd.start)] and
    [Math.max(selectionStart.end, selectionEnd.end)], when both are set. *)
Definition selectionRange (ts : TranscriptState) : option (float * float) :=
  match selectionStart ts, selectionEnd ts with
  | Some a, Some f =>
      Some (JS.Math_min (word_start a) (word_start f),
            JS.Math_max (word_end a) (word_end f))
  | _, _ => None
  end.

Definition handleSelectionEnd (ts : TranscriptState) : TranscriptState * list Callback :=
  (setSelection None None false ts,
   match selectionRange ts with
   | Some (s, e) => [onToggleRange s e]
   | None => []
   end).

(** [if (isSelecting) return; onSeek(word.start)]. *)
Definition handleWordClick (word : Word) (ts : TranscriptState) : TranscriptState * list Callback :=
  (ts, if isSelecting ts then [] else [onSeek (word_start word)]).

Definition isWordInSelection (ts : TranscriptState) (word : Word) : bool :=
  match selectionRange ts with
  | Some (s, e) => JS.ge (word_start word) s && JS.le (word_end word) e
  | None => false
  end.

Definition clearTimeout (id : positive) (timers : list (positive * Word)) : list (positive * Word) :=
  filter (fun t => negb (Pos.eqb (fst t) id)) timers.

(** [touchTimer.current = setTimeout(() => handleWordLongPress(word), 500)]. *)
Definition handleTouchStart (word : Word) (ts : TranscriptState) : TranscriptState :=
  {| selectionStart := selectionStart ts; selectionEnd := selectionEnd ts;
     isSelecting := isSelecting ts;
     touchTimer := Some (nextTimer ts);
     pendingTimers := (nextTimer ts, word) :: pendingTimers ts;
     nextTimer := Pos.succ (nextTimer ts) |}.

(** The timeout [id] elapses: its callback runs if it is still pending. *)
Definition timeoutElapses (id : positive) (ts : TranscriptState) : TranscriptState :=
  match find (fun t => Pos.eqb (fst t) id) (pendingTimers ts) with
  | Some (_, word) =>
      handleWordLongPress word
        {| selectionStart := selectionStart ts; selectionEnd := selectionEnd ts;
           isSelecting := isSelecting ts; touchTimer := touchTimer ts;
           pendingTimers := clearTimeout id (pendingTimers ts);
           nextTimer := nextTimer ts |}
  | None => ts
  end.

(** [if (touchTimer.current) clearTimeout(touchTimer.current);
    if (isSelecting) handleSelectionEnd()]. *)
Definition handleTouchEnd (ts : TranscriptState) : TranscriptState * list Callback :=
  let ts1 :=
    {| selectionStart := selectionStart ts; selectionEnd := selectionEnd ts;
       isSelecting := isSelecting ts; touchTimer := touchTimer ts;
       pendingTimers :=
         match touchTimer ts with
         | Some id => clearTimeout id (pendingTimers ts)
         | None => pendingTimers ts
         end;
       nextTimer := nextTimer ts |} in
  if isSelecting ts then handleSelectionEnd ts1 else (ts1, []).

(** [handleTouchMove]: [target] is the word index of the element under the
    finger, when that element is a word. *)
Definition handleTouchMove (transcript : list Word) (target : option nat)
    (ts : TranscriptState) : TranscriptState :=
  if isSelecting ts then
    match target with
    | Some index =>
        match nth_error transcript index with
        | Some word => setSelection (selectionStart ts) (Some word) (isSelecting ts) ts
        | None => ts
        end
    | None => ts
    end
  else ts.

(** The events Transcript handles.  The container listens to mouse-up
    only while selecting; the Cancel and Remove buttons are rendered only
    while selecting. *)
Inductive TranscriptEvent : Type :=
| mouseDown (word : Word)
| mouseEnter (word : Word)
| mouseUp
| wordClick (word : Word)
| touchStart (word : Word)
| timeout (id : positive)
| touchMove (target : option nat)
| touchEnd
| cancelButton
| removeButton.

Definition transcriptStep (transcript : list Word) (ts : TranscriptState)
    (ev : TranscriptEvent) : TranscriptState * list Callback :=
  match ev with
  | mouseDown word => (handleWordLongPress word ts, [])
  | mouseEnter word => (handleWordHover word ts, [])
  | mouseUp => if isSelecting ts then handleSelectionEnd ts else (ts, [])
  | wordClick word => handleWordClick word ts
  | touchStart word => (handleTouchStart word ts, [])
  | timeout id => (timeoutElapses id ts, [])
  | touchMove target => (handleTouchMove transcript target ts, [])
  | touchEnd => handleTouchEnd ts
  | cancelButton =>
      if isSelecting ts then (setSelection None None false ts, []) else (ts, [])
  | removeButton => if isSelecting ts then handleSelectionEnd ts else (ts, [])
  end.

(** A run of events: the final hooks and the callbacks made, in order. *)
Fixpoint transcriptRun (transcript : list Word) (evs : list TranscriptEvent)
    (ts : TranscriptState) : TranscriptState * list Callback :=
  match evs with
  | [] => (ts, [])
  | ev :: r =>
      let '(ts1, calls1) := transcriptStep transcript ts ev in
      let '(ts2, calls2) := transcriptRun transcript r ts1 in
      (ts2, calls1 ++ calls2)
  end.

(** EditorScreen passes [toggleWordRange] and [seekTo] as the callbacks. *)
Definition answer (es : EditorState) (c : Callback) : EditorState :=
  match c with
  | onToggleRange a b => toggleWordRange a b es
  | onSeek time => seekTo time es
  end.

(** While selecting both ends of the selection are set; otherwise neither
    is. *)
Definition selectionCoherent (ts : TranscriptState) : Prop :=
  match isSelecting ts with
  | true => exists a f, selectionStart ts = Some a /\ selectionEnd ts = Some f
  | false => selectionStart ts = None /\ selectionEnd ts = None
  end.

(* ================================================================== *)
(** ** UploadScreen.jsx: the list of files *)
(* ================================================================== *)

(** What the screen reads of a [File]. *)
Record File : Type := {
  file_name : string;
  file_type : string
}.

(** [file.type.startsWith('video/')]. *)
Definition isVideo (file : File) : bool := String.prefix "video/" (file_type file).

(** [setFiles(prev => [...prev, ...videoFiles])]. *)
Definition handleFiles (newFiles prev : list File) : list File :=
  prev ++ filter isVideo newFiles.

(** [l.filter((x, i) => p x i)]. *)
Fixpoint filteri_from {A : Type} (p : A -> nat -> bool) (i : nat) (l : list A) : list A :=
  match l with
  | [] => []
  | x :: r => if p x i then x :: filteri_from p (S i) r else filteri_from p (S i) r
  end.

(** [prev.filter((_, i) => i !== index)]. *)
Definition removeFile (index : Z) (prev : list File) : list File :=
  filteri_from (fun _ i => negb (Z.of_nat i =? index)%Z) 0 prev.

(** [if (files.length > 0) onUpload(files, silenceThreshold)]: the
    arguments of [onUpload], if it is called. *)
Definition handleSubmit (files : list File) (silenceThreshold : float)
    : option (list File * float) :=
  match files with
  | [] => None
  | _ :: _ => Some (files, silenceThreshold)
  end.

Inductive FilesEvent : Type :=
| filesChosen (newFiles : list File)
| removeClicked (index : nat).

(** The remove button of row [index] exists only for a file of the list. *)
Definition filesStep (files : list File) (ev : FilesEvent) : list File :=
  match ev with
  | filesChosen newFiles => handleFiles newFiles files
  | removeClicked index =>
      match nth_error files index with
      | Some _ => removeFile (Z.of_nat index) files
      | None => files
      end
  end.

(* ================================================================== *)
(** ** api.js: the download address *)
(* ================================================================== *)

(** [import.meta.env.VITE_API_URL || '/api']. *)
Definition API_BASE (VITE_API_URL : option string) : string :=
  JS.or_string VITE_API_URL "/api".

(** [downloadPath.startsWith('http') ? downloadPath : API_BASE + downloadPath]. *)
Definition getDownloadUrl (VITE_API_URL : option string) (downloadPath : string) : string :=
  if String.prefix "http" downloadPath then downloadPath
  else (API_BASE VITE_API_URL ++ downloadPath)%string.

(* ================================================================== *)
(** ** Words for the added facts *)
(* ================================================================== *)

(** The scales the zoom buttons can reach. *)
Definition zoomLevels : list float :=
  [0.5; 0.75; 1; 1.25; 1.5; 1.75; 2; 2.25; 2.5; 2.75; 3]%float.

(** An edit selects the segment [seg] at position [i]. *)
Definition selects (e : Edit) (seg : Segment) (i : nat) : bool :=
  match e with
  | toggle index => (Z.of_nat i =? index)%Z
  | toggleRange a b => inRange a b seg
  end.

(** How many edits of a list select [seg] at position [i], modulo two. *)
Definition oddlySelected (edits : list Edit) (seg : Segment) (i : nat) : bool :=
  fold_left (fun acc e => xorb acc (selects e seg i)) edits false.

(** What the workflow keeps between two events: in the upload screen no
    analysis result and no editor; in the editor an identifier, the
    analysis result, and an editor whose segments have the boundaries of
    that result. *)
Definition coherent (w : World) : Prop :=
  match screen (app w) with
  | upload => projectData (app w) = None /\ editorScreen w = None
  | processing => False
  | editor =>
      exists id pd es,
        projectId (app w) = Some id /\
        projectData (app w) = Some pd /\
        editorScreen w = Some es /\
        map frame (segments es) = map frame (JS.or_array (pd_segments pd))
  end.

(** No failure message that App holds is empty. *)
Definition errorShown (w : World) : Prop :=
  forall msg, error (app w) = Some msg -> msg <> EmptyString.

(* ================================================================== *)
(** * Facts *)
(* ================================================================== *)

(** ** The order of binary64 numbers, through ranks *)

Module FloatOrderFacts.
Import FloatOrder.
Local Open Scope Z_scope.

Ltac cmp_cases :=
  repeat match goal with
  | |- context [Z.compare ?a ?b] =>
      destruct (Z.compare_spec a b)
  | |- context [Pos.compare_cont Eq ?a ?b] =>
      change (Pos.compare_cont Eq a b) with (Pos.compare a b);
      destruct (Pos.compare_spec a b)
  end.

Lemma SFleb_rank (x y : spec_float) :
  SFleb x y = true <->
  exists p q, rank x = Some p /\ rank y = Some q /\ lex_le p q.
Proof.
  unfold SFleb, SFcompare.
  destruct x as [[|]|[|]| |[|] mx ex], y as [[|]|[|]| |[|] my ey];
    cbn [rank]; cmp_cases; cbn [CompOpp];
    (split;
     [ intros Hc;
       first [ discriminate Hc
             | eexists; eexists; split; [reflexivity|split; [reflexivity|]];
               cbn; lia ]
     | intros (p & q & Hp & Hq & Hc);
       first [ discriminate Hp | discriminate Hq
             | injection Hp as <-; injection Hq as <-; cbn in Hc;
               first [ reflexivity | lia ] ] ]).
Qed.

Lemma SFltb_rank (x y : spec_float) :
  SFltb x y = true <->
  exists p q, rank x = Some p /\ rank y = Some q /\ lex_lt p q.
Proof.
  unfold SFltb, SFcompare.
  destruct x as [[|]|[|]| |[|] mx ex], y as [[|]|[|]| |[|] my ey];
    cbn [rank]; cmp_cases; cbn [CompOpp];
    (split;
     [ intros Hc;
       first [ discriminate Hc
             | eexists; eexists; split; [reflexivity|split; [reflexivity|]];
               cbn; lia ]
     | intros (p & q & Hp & Hq & Hc);
       first [ discriminate Hp | discriminate Hq
             | injection Hp as <-; injection Hq as <-; cbn in Hc;
               first [ reflexivity | lia ] ] ]).
Qed.

Lemma leb_le (x y : float) : (x <=? y)%float = true <-> le x y.
Proof. rewrite FloatAxioms.leb_spec. apply SFleb_rank. Qed.

Lemma ltb_lt (x y : float) : (x <? y)%float = true <-> lt x y.
Proof. rewrite FloatAxioms.ltb_spec. apply SFltb_rank. Qed.

Lemma is_nan_rank (x : float) :
  is_nan x = false <-> exists p, rank (Prim2SF x) = Some p.
Proof.
  unfold is_nan. rewrite FloatAxioms.eqb_spec. unfold SFeqb, SFcompare.
  destruct (Prim2SF x) as [[|]|[|]| |[|] m e]; cbn [rank]; cmp_cases;
    cbn [negb CompOpp];
    (split; [ intros Hc; first [ discriminate Hc | eexists; reflexivity ]
            | intros [p Hp]; first [ discriminate Hp | reflexivity | lia ] ]).
Qed.

(** Unpack every order fact of the context into ranks and integers. *)
Ltac ranks :=
  repeat match goal with
  | H : (_ <=? _)%float = true |- _ => apply leb_le in H
  | H : (_ <? _)%float = true |- _ => apply ltb_lt in H
  | H : is_nan _ = false |- _ => apply is_nan_rank in H
  | H : le _ _ |- _ => destruct H as (? & ? & ? & ? & H)
  | H : lt _ _ |- _ => destruct H as (? & ? & ? & ? & H)
  | H : exists p, rank _ = Some p |- _ => destruct H as [? H]
  end;
  repeat match goal with
  | H1 : rank ?x = Some ?p, H2 : rank ?x = Some ?q |- _ =>
      assert (q = p) by congruence; subst q; clear H2
  end;
  repeat match goal with
  | p : (Z * Z * Z)%type |- _ => destruct p as [[? ?] ?]
  end;
  unfold lex_le, lex_lt in *.

Lemma le_trans (x y z : float) : le x y -> le y z -> le x z.
Proof.
  intros Hxy Hyz. ranks.
  eexists; eexists; split; [eassumption|split; [eassumption|]]. cbn. lia.
Qed.

Lemma lt_le_incl (x y : float) : lt x y -> le x y.
Proof.
  intros Hxy. ranks.
  eexists; eexists; split; [eassumption|split; [eassumption|]]. cbn. lia.
Qed.

Lemma lt_not_le (x y : float) : lt x y -> le y x -> False.
Proof. intros Hxy Hyx. ranks. lia. Qed.

Lemma le_refl (x : float) : is_nan x = false -> le x x.
Proof.
  intros Hx. ranks.
  eexists; eexists; split; [eassumption|split; [eassumption|]]. cbn. lia.
Qed.

Lemma le_not_nan (x y : float) : le x y -> is_nan x = false /\ is_nan y = false.
Proof.
  intros (p & q & Hp & Hq & _).
  split; apply is_nan_rank; eexists; eassumption.
Qed.

Lemma lt_not_nan (x y : float) : lt x y -> is_nan x = false /\ is_nan y = false.
Proof. intros H. apply le_not_nan, lt_le_incl, H. Qed.

(** Two numbers that are not NaN are comparable. *)
Lemma lt_or_le (x y : float) :
  is_nan x = false -> is_nan y = false -> lt x y \/ le y x.
Proof.
  intros Hx Hy. apply is_nan_rank in Hx, Hy.
  destruct Hx as [[[a b] c] Hp], Hy as [[[a' b'] c'] Hq].
  assert (Hc : lex_lt (a, b, c) (a', b', c') \/ lex_le (a', b', c') (a, b, c))
    by (cbn; lia).
  destruct Hc as [Hc|Hc]; [left|right];
    eexists; eexists; split; [eassumption|split; eassumption
                             |eassumption|split; eassumption].
Qed.

Lemma not_lt_le (x y : float) :
  is_nan x = false -> is_nan y = false -> (x <? y)%float = false -> le y x.
Proof.
  intros Hx Hy Hlt.
  destruct (@lt_or_le x y Hx Hy) as [H|H]; [|exact H].
  apply ltb_lt in H. congruence.
Qed.

End FloatOrderFacts.

(* ================================================================== *)
(** ** Array helpers *)
(* ================================================================== *)

Lemma mapi_from_length {A B : Type} (f : A -> nat -> B) (l : list A) (i : nat) :
  List.length (JS.mapi_from f i l) = List.length l.
Proof.
  revert i. induction l as [|x r IH]; intros i; cbn; [reflexivity|].
  now rewrite IH.
Qed.

Lemma mapi_from_nth_error {A B : Type} (f : A -> nat -> B) (l : list A) (i n : nat) :
  nth_error (JS.mapi_from f i l) n =
  option_map (fun x => f x (i + n)%nat) (nth_error l n).
Proof.
  revert i n. induction l as [|x r IH]; intros i [|n]; cbn; try reflexivity.
  - now rewrite Nat.add_0_r.
  - rewrite IH. now rewrite Nat.add_succ_comm.
Qed.


Lemma map_id_on {A : Type} (f : A -> A) (l : list A) :
  (forall x, In x l -> f x = x) -> map f l = l.
Proof.
  induction l as [|x r IH]; intros H; cbn; [reflexivity|].
  f_equal; [apply H; now left|apply IH; intros y Hy; apply H; now right].
Qed.

(* ================================================================== *)
(** ** The segment store *)
(* ================================================================== *)

Lemma frame_flipKeep (seg : Segment) : frame (flipKeep seg) = frame seg.
Proof. reflexivity. Qed.

Lemma flipKeep_keep (seg : Segment) : keep (flipKeep seg) = negb (keep seg).
Proof. reflexivity. Qed.

Lemma flipKeep_involutive (seg : Segment) : flipKeep (flipKeep seg) = seg.
Proof. destruct seg as [s e k sil t]. unfold flipKeep. cbn. now rewrite negb_involutive. Qed.

Lemma toggleSegment_list_length (index : Z) (prev : list Segment) :
  List.length (toggleSegment_list index prev) = List.length prev.
Proof. apply mapi_from_length. Qed.

Lemma toggleSegment_list_nth_error (index : Z) (prev : list Segment) (i : nat) :
  nth_error (toggleSegment_list index prev) i =
  option_map (fun seg => if (Z.of_nat i =? index)%Z then flipKeep seg else seg)
             (nth_error prev i).
Proof. unfold toggleSegment_list, JS.mapi. now rewrite mapi_from_nth_error. Qed.


Lemma toggleWordRange_list_nth_error (a b : float) (prev : list Segment) (i : nat) :
  nth_error (toggleWordRange_list a b prev) i =
  option_map (fun seg => if inRange a b seg then flipKeep seg else seg)
             (nth_error prev i).
Proof. apply nth_error_map. Qed.

Lemma toggleSegment_list_frame (index : Z) (prev : list Segment) :
  map frame (toggleSegment_list index prev) = map frame prev.
Proof.
  unfold toggleSegment_list, JS.mapi. generalize 0%nat.
  induction prev as [|seg r IH]; intros i; cbn; [reflexivity|].
  rewrite IH. f_equal. now destruct (Z.of_nat i =? index)%Z.
Qed.

Lemma toggleWordRange_list_frame (a b : float) (prev : list Segment) :
  map frame (toggleWordRange_list a b prev) = map frame prev.
Proof.
  unfold toggleWordRange_list. rewrite map_map. apply map_ext.
  intros seg. now destruct (inRange a b seg).
Qed.

Lemma applyEdit_frame (es : EditorState) (e : Edit) :
  map frame (segments (applyEdit es e)) = map frame (segments es).
Proof.
  destruct e; cbn.
  - apply toggleSegment_list_frame.
  - apply toggleWordRange_list_frame.
Qed.

Lemma setSegments_same (f : list Segment -> list Segment) (es : EditorState) :
  f (segments es) = segments es -> setSegments f es = es.
Proof. intros H. destruct es. unfold setSegments. cbn in *. now rewrite H. Qed.

Lemma inRange_contained (a b : float) (seg : Segment) :
  inRange a b seg = true <-> contained a b seg.
Proof. unfold inRange, contained, JS.ge, JS.le. apply andb_true_iff. Qed.




(** Toggling the same index twice, or the same range twice, gives the
    segments back. *)
Lemma toggleSegment_list_involutive (index : Z) (prev : list Segment) :
  toggleSegment_list index (toggleSegment_list index prev) = prev.
Proof.
  unfold toggleSegment_list, JS.mapi. generalize 0%nat.
  induction prev as [|seg r IH]; intros i; cbn; [reflexivity|].
  rewrite IH. f_equal.
  destruct (Z.of_nat i =? index)%Z; [apply flipKeep_involutive|reflexivity].
Qed.

Lemma toggleWordRange_list_involutive (a b : float) (prev : list Segment) :
  toggleWordRange_list a b (toggleWordRange_list a b prev) = prev.
Proof.
  unfold toggleWordRange_list. rewrite map_map. apply map_id_on.
  intros seg _. destruct (inRange a b seg) eqn:E.
  - change (inRange a b (flipKeep seg)) with (inRange a b seg).
    rewrite E. apply flipKeep_involutive.
  - now rewrite E.
Qed.

Lemma applyEdits_frame (edits : list Edit) (es : EditorState) :
  map frame (segments (applyEdits edits es)) = map frame (segments es).
Proof.
  unfold applyEdits. revert es.
  induction edits as [|e r IH]; intros es; cbn; [reflexivity|].
  rewrite IH. apply applyEdit_frame.
Qed.

(** C8. Every sequence of user edits (toggle or toggleRange) leaves the
    number of segments, their order, and the [start], [end], [is_silence]
    and [text] of each segment as they were: only [keep] can change. *)
Theorem edits_change_only_keep (edits : list Edit) (es : EditorState) :
  map frame (segments (applyEdits edits es)) = map frame (segments es) /\
  List.length (segments (applyEdits edits es)) = List.length (segments es).
Proof.
  split; [apply applyEdits_frame|].
  rewrite <- (length_map frame (segments (applyEdits edits es))).
  rewrite applyEdits_frame. apply length_map.
Qed.

(** C7. For every analysis result and every sequence of toggle and
    toggleRange edits made since the editor was mounted on it, resetEdits
    puts back the segments of the analysis result, so every [keep] flag has
    its analysis value.  resetEdits reads the result held since mounting,
    which no edit writes to, and takes no collaborator outcome: nothing is
    fetched again. *)
Theorem reset_restores_analysis_keep (pd : ProjectData) (edits : list Edit) :
  segments (resetEdits pd (applyEdits edits (mountEditor pd)))
    = JS.or_array (pd_segments pd) /\
  segments (resetEdits pd (applyEdits edits (mountEditor pd)))
    = segments (mountEditor pd) /\
  map keep (segments (resetEdits pd (applyEdits edits (mountEditor pd))))
    = map keep (JS.or_array (pd_segments pd)).
Proof. repeat split. Qed.

Lemma inRange_empty_range (a b : float) (seg : Segment) :
  (start seg <? end_ seg)%float = true ->
  (b <=? a)%float = true ->
  inRange a b seg = false.
Proof.
  intros Hse Hba. unfold inRange, JS.ge, JS.le.
  destruct (a <=? start seg)%float eqn:Has; [|reflexivity].
  destruct (end_ seg <=? b)%float eqn:Heb; [|reflexivity].
  exfalso.
  apply FloatOrderFacts.leb_le in Hba, Has, Heb.
  apply FloatOrderFacts.ltb_lt in Hse.
  apply (FloatOrderFacts.lt_not_le _ _ Hse).
  eapply FloatOrderFacts.le_trans; [exact Heb|].
  eapply FloatOrderFacts.le_trans; [exact Hba|exact Has].
Qed.

(** C10. For every segment list whose segments all have [start < end],
    toggleRange(a, b) with [b <= a] changes no segment: the store is
    returned as it was. *)
Theorem toggleRange_empty_range_noop (a b : float) (es : EditorState) :
  Forall (fun seg => (start seg <? end_ seg)%float = true) (segments es) ->
  (b <=? a)%float = true ->
  toggleWordRange a b es = es.
Proof.
  intros Hall Hba. apply setSegments_same.
  unfold toggleWordRange_list. apply map_id_on.
  intros seg Hin. rewrite Forall_forall in Hall.
  now rewrite (inRange_empty_range a b seg (Hall seg Hin) Hba).
Qed.

Lemma keptDuration_fold (segs : list Segment) (acc : float) :
  fold_left (fun acc s => (acc + (end_ s - start s))%float)
            (filter (fun s => keep s) segs) acc
  = sumKeptFrom acc segs.
Proof.
  revert acc. induction segs as [|s r IH]; intros acc; cbn; [reflexivity|].
  destruct (keep s); cbn; apply IH.
Qed.

(** C6, as amended. After every sequence of edits the stats are derived
    from the current segments: keptDuration is the sum of [end - start]
    over the segments with [keep = true], added up in binary64 in list
    order from 0, and removedDuration is the project's duration (0 when it
    is missing, zero or NaN) minus keptDuration. *)
Theorem stats_follow_current_segments
    (pd : ProjectData) (es : EditorState) (edits : list Edit) :
  keptDuration (applyEdits edits es)
    = sumKeptFrom 0%float (segments (applyEdits edits es)) /\
  removedDuration pd (applyEdits edits es)
    = (JS.or_number (duration pd) 0 - keptDuration (applyEdits edits es))%float.
Proof.
  split; [|reflexivity].
  unfold keptDuration, JS.reduce. apply keptDuration_fold.
Qed.



(** Every instant of a segment contained in a range lies in the range. *)
Lemma contained_instants (a b : float) (seg : Segment) (t : float) :
  contained a b seg ->
  (start seg <=? t)%float = true -> (t <? end_ seg)%float = true ->
  (a <=? t)%float = true /\ (t <=? b)%float = true.
Proof.
  intros [Ha Hb] Hs He.
  apply FloatOrderFacts.leb_le in Ha, Hb, Hs. apply FloatOrderFacts.ltb_lt in He.
  split; apply FloatOrderFacts.leb_le.
  - eapply FloatOrderFacts.le_trans; eassumption.
  - eapply FloatOrderFacts.le_trans; [|exact Hb].
    now apply FloatOrderFacts.lt_le_incl.
Qed.

(** The scenario of the specification: after toggleRange(4, 6) on the
    clip of ten seconds, 8 seconds are kept and 2 removed. *)
Example stats_scenario :
  keptDuration (toggleWordRange 4 6 (mountEditor tenSeconds)) = 8%float /\
  removedDuration tenSeconds (toggleWordRange 4 6 (mountEditor tenSeconds)) = 2%float.
Proof. vm_compute. split; reflexivity. Qed.

(** C10 at a sample: the inverted range from 6 down to 4 changes nothing. *)
Lemma toggleRange_empty_range_noop_witness :
  toggleWordRange 6 4 (mountEditor tenSeconds) = mountEditor tenSeconds.
Proof.
  apply toggleRange_empty_range_noop.
  - repeat constructor.
  - vm_compute. reflexivity.
Defined.

(** C6, the counterexample. A clip of 0.9 s in the segments from 0 to 0.2
    and from 0.2 to 0.9; after toggle(1) removes the second, keptDuration is
    0.2 and removedDuration is 0.9 - 0.2, and their binary64 sum is
    0.8999999999999999, not the duration. *)
Lemma stats_sum_is_not_duration :
  let es := toggleSegment 1 (mountEditor shortClip) in
  keptDuration es = 0.2%float /\
  removedDuration shortClip es = (0.9 - 0.2)%float /\
  (keptDuration es + removedDuration shortClip es)%float = 0.8999999999999999%float /\
  (keptDuration es + removedDuration shortClip es =? totalDuration shortClip)%float = false /\
  (keptDuration es + removedDuration shortClip es <? totalDuration shortClip)%float = true.
Proof. vm_compute. repeat split. Qed.

(* ================================================================== *)
(** ** The display of words *)
(* ================================================================== *)

(** C4, as amended. For every word and every segment list, isWordRemoved
    is true exactly when one removed segment encloses the word, ends
    included: [start <= wstart] and [wend <= end] for a single segment with
    [keep = false].  A word that no single removed segment encloses is
    displayed as kept. *)
Theorem isWordRemoved_iff_enclosed_by_one
    (segs : list Segment) (wstart wend : float) :
  isWordRemoved segs wstart wend = true <-> enclosedByOne segs wstart wend.
Proof.
  unfold isWordRemoved, JS.some, removedRanges, enclosedByOne, JS.ge, JS.le.
  rewrite existsb_exists. split.
  - intros (range & Hin & Htest).
    apply in_map_iff in Hin. destruct Hin as (s & <- & Hs).
    apply filter_In in Hs. destruct Hs as [Hs Hk].
    apply andb_true_iff in Htest. cbn in Htest.
    exists s. repeat split; try tauto.
    now apply negb_true_iff.
  - intros (s & Hs & Hk & H1 & H2).
    exists {| range_start := start s; range_end := end_ s |}. split.
    + apply in_map_iff. exists s. split; [reflexivity|].
      apply filter_In. split; [exact Hs|]. now rewrite Hk.
    + cbn. now rewrite H1, H2.
Qed.

(** The scenario of the specification: the word from 1.0 to 1.4 is shown
    as kept while the segment from 0 to 4 is kept, and as removed once
    toggleRange(0, 4) has removed it. *)
Example isWordRemoved_scenario :
  isWordRemoved (segments (mountEditor tenSeconds)) 1.0 1.4 = false /\
  isWordRemoved (segments (toggleWordRange 0 4 (mountEditor tenSeconds))) 1.0 1.4 = true.
Proof. vm_compute. split; reflexivity. Qed.

(** C4, the counterexample. The segments from 0 to 4 and from 4 to 6 are
    both removed; the word from 3.5 to 4.5 lies inside the removed ranges,
    every instant of it, and is displayed as kept, because neither segment
    encloses it alone. *)
Lemma word_across_two_removed_segments_is_kept :
  let segs := [segment 0 4 false false; segment 4 6 false true] in
  enclosedByRemoved segs 3.5 4.5 /\ isWordRemoved segs 3.5 4.5 = false.
Proof.
  cbv zeta. split; [|vm_compute; reflexivity].
  intros t Hlo Hhi.
  apply FloatOrderFacts.leb_le in Hlo. apply FloatOrderFacts.ltb_lt in Hhi.
  destruct (FloatOrderFacts.le_not_nan _ _ Hlo) as [_ Ht].
  assert (H4 : is_nan 4%float = false) by (vm_compute; reflexivity).
  destruct (FloatOrderFacts.lt_or_le 4%float t H4 Ht) as [Hgt|Hle].
  - exists (segment 4 6 false true). split; [right; left; reflexivity|].
    split; [reflexivity|]. cbn. split; apply FloatOrderFacts.leb_le.
    + now apply FloatOrderFacts.lt_le_incl.
    + eapply FloatOrderFacts.le_trans.
      * apply FloatOrderFacts.lt_le_incl. exact Hhi.
      * apply FloatOrderFacts.leb_le. vm_compute. reflexivity.
  - exists (segment 0 4 false false). split; [left; reflexivity|].
    split; [reflexivity|]. cbn. split; apply FloatOrderFacts.leb_le.
    + eapply FloatOrderFacts.le_trans; [|exact Hlo].
      apply FloatOrderFacts.leb_le. vm_compute. reflexivity.
    + exact Hle.
Qed.

(* ================================================================== *)
(** ** Seeking *)
(* ================================================================== *)

Lemma Math_min_le (time duration : float) :
  is_nan time = false -> is_nan duration = false ->
  is_nan (JS.Math_min time duration) = false /\
  FloatOrder.le (JS.Math_min time duration) duration.
Proof.
  intros Ht Hd. unfold JS.Math_min. rewrite Ht, Hd. cbn [orb].
  destruct (time <? duration)%float eqn:E1.
  - split; [exact Ht|].
    apply FloatOrderFacts.lt_le_incl, FloatOrderFacts.ltb_lt, E1.
  - destruct (duration <? time)%float eqn:E2.
    + split; [exact Hd|]. now apply FloatOrderFacts.le_refl.
    + destruct (JS.is_neg_zero time).
      * split; [exact Ht|]. now apply FloatOrderFacts.not_lt_le.
      * split; [exact Hd|]. now apply FloatOrderFacts.le_refl.
Qed.

(** [Math.max(0, Math.min(time, duration))] lies between 0 and a duration
    that is not negative. *)
Lemma clamp_in_range (time duration : float) :
  is_nan time = false ->
  (0 <=? duration)%float = true ->
  (0 <=? JS.Math_max 0 (JS.Math_min time duration))%float = true /\
  (JS.Math_max 0 (JS.Math_min time duration) <=? duration)%float = true.
Proof.
  intros Ht Hd.
  pose proof Hd as Hd'. apply FloatOrderFacts.leb_le in Hd'.
  destruct (FloatOrderFacts.le_not_nan _ _ Hd') as [H0 Hdn].
  destruct (Math_min_le time duration Ht Hdn) as [Hm Hmd].
  unfold JS.Math_max. rewrite H0, Hm. cbn [orb].
  destruct (0 <? JS.Math_min time duration)%float eqn:E1.
  - split; apply FloatOrderFacts.leb_le; [|exact Hmd].
    apply FloatOrderFacts.lt_le_incl, FloatOrderFacts.ltb_lt, E1.
  - assert (Hz : (0 <=? 0)%float = true) by (vm_compute; reflexivity).
    change (JS.is_neg_zero 0) with false.
    destruct (JS.Math_min time duration <? 0)%float; split; assumption.
Qed.

Example clamp_samples :
  JS.Math_max 0 (JS.Math_min 12 10) = 10%float /\
  JS.Math_max 0 (JS.Math_min (-3) 10) = 0%float /\
  JS.Math_max 0 (JS.Math_min 2.5 10) = 2.5%float /\
  classify (JS.Math_max 0 (-0)) = PZero /\
  classify (JS.Math_min 0 (-0)) = NZero /\
  is_nan (JS.Math_max 0 (JS.Math_min nan 10)) = true.
Proof. vm_compute. repeat split. Qed.

(** With no media element under the ref, seekTo changes nothing. *)
Lemma seekTo_detached (time : float) (es : EditorState) :
  videoRef es = None -> seekTo time es = es.
Proof. intros Hv. unfold seekTo. now rewrite Hv. Qed.

(* ================================================================== *)
(** ** The workflow *)
(* ================================================================== *)

Lemma errorMessage_not_empty (err : ApiError) (fallback : string) :
  fallback <> EmptyString -> errorMessage err fallback <> EmptyString.
Proof.
  intros Hf. unfold errorMessage, JS.or_string.
  destruct (detail err) as [[|c d]|]; try discriminate;
    destruct (message err) as [[|c' m]|]; try discriminate; exact Hf.
Qed.

Lemma settled_initial : settled initialWorld.
Proof. cbn. split; reflexivity. Qed.

Lemma handleUpload_settled (up : Outcome UploadResult) (an : Outcome ProjectData) (w : World) :
  settled w -> screen (app w) = upload -> settled (handleUpload up an w).
Proof.
  unfold settled. intros Hs Hscr. rewrite Hscr in Hs. destruct Hs as [Hpd Hed].
  unfold handleUpload, commit, render.
  destruct up as [u|err]; [destruct an as [pd|err]|]; cbn; rewrite ?Hpd, ?Hed; cbn.
  - eexists; eexists; split; reflexivity.
  - split; reflexivity.
  - split; reflexivity.
Qed.

Lemma handleExport_settled (segs : list Segment) (upd : Outcome unit)
    (ex : Outcome ExportResult) (w : World) :
  settled w -> screen (app w) = editor -> settled (handleExport segs upd ex w).
Proof.
  unfold settled. intros Hs Hscr. rewrite Hscr in Hs.
  destruct Hs as (pd & es & Hpd & Hed).
  unfold handleExport, commit, render.
  destruct upd as [u|err]; [destruct ex as [r|err]|]; cbn; rewrite ?Hpd, ?Hed; cbn.
  - split; reflexivity.
  - eexists; eexists; split; reflexivity.
  - eexists; eexists; split; reflexivity.
Qed.

Lemma inEditor_settled (f : ProjectData -> EditorState -> EditorState) (w : World) :
  settled w -> settled (inEditor f w).
Proof.
  intros Hs. unfold inEditor.
  destruct (editorScreen w) as [es|] eqn:Hed; [|exact Hs].
  destruct (projectData (app w)) as [pd|] eqn:Hpd; [|exact Hs].
  unfold settled in *. cbn.
  destruct (screen (app w)); try exact Hs.
  - destruct Hs as [Hn _]. congruence.
  - eexists; eexists; split; [eassumption|reflexivity].
Qed.

Lemma step_settled (w : World) (ev : Event) : settled w -> settled (step w ev).
Proof.
  intros Hs. destruct ev as [files thr up an|e|time| |upd ex| |]; cbn.
  - destruct (screen (app w)) eqn:Hscr; try exact Hs.
    destruct files; [exact Hs|]. now apply handleUpload_settled.
  - now apply inEditor_settled.
  - now apply inEditor_settled.
  - now apply inEditor_settled.
  - destruct (editorScreen w) as [es|] eqn:Hed; [|exact Hs].
    apply handleExport_settled; [exact Hs|].
    unfold settled in Hs. destruct (screen (app w)); [|contradiction|reflexivity].
    destruct Hs as [_ Hn]. congruence.
  - destruct (editorScreen w); [|exact Hs]. cbn. split; reflexivity.
  - destruct (error (app w)); [|exact Hs].
    unfold settled, dismissError, commit, render in *. cbn.
    destruct (screen (app w)); [| |].
    + destruct Hs as [Hpd _]. cbn. split; [exact Hpd|reflexivity].
    + exact Hs.
    + destruct Hs as (pd & es & Hpd & Hed). rewrite Hpd, Hed.
      eexists; eexists; split; reflexivity.
Qed.

Lemma run_settled (evs : list Event) (w : World) : settled w -> settled (run evs w).
Proof.
  unfold run. revert w. induction evs as [|ev r IH]; intros w Hs; cbn; [exact Hs|].
  apply IH, step_settled, Hs.
Qed.

Lemma reachable_settled (w : World) : reachable w -> settled w.
Proof. intros [evs ->]. apply run_settled, settled_initial. Qed.

Lemma render_detached (a : AppState) (mounted : option EditorState) :
  match mounted with
  | Some es => videoRef es = None /\ currentTime es = 0%float
  | None => True
  end ->
  match render a mounted with
  | Some es => videoRef es = None /\ currentTime es = 0%float
  | None => True
  end.
Proof.
  intros H. unfold render.
  destruct (screen a); try exact I.
  destruct (projectData a) as [pd|]; [|exact I].
  destruct mounted as [es|]; [exact H|]. split; reflexivity.
Qed.

Lemma commit_detached (a : AppState) (w : World) : detached w -> detached (commit a w).
Proof. intros H. unfold detached, commit. cbn. now apply render_detached. Qed.

Lemma applyEdit_detached (es : EditorState) (e : Edit) :
  videoRef (applyEdit es e) = videoRef es /\
  currentTime (applyEdit es e) = currentTime es.
Proof. destruct e; split; reflexivity. Qed.

Lemma inEditor_detached (f : ProjectData -> EditorState -> EditorState) (w : World) :
  (forall pd es, videoRef es = None ->
     videoRef (f pd es) = None /\ currentTime (f pd es) = currentTime es) ->
  detached w -> detached (inEditor f w).
Proof.
  intros Hf Hd. unfold inEditor.
  destruct (editorScreen w) as [es|] eqn:Hed; [|exact Hd].
  destruct (projectData (app w)) as [pd|]; [|exact Hd].
  unfold detached in *. rewrite Hed in Hd. cbn.
  destruct Hd as [Hn H0]. destruct (Hf pd es Hn) as [-> ->]. now split.
Qed.

Lemma step_detached (w : World) (ev : Event) : detached w -> detached (step w ev).
Proof.
  intros Hd. destruct ev as [files thr up an|e|time| |upd ex| |]; cbn.
  - destruct (screen (app w)); try exact Hd.
    destruct files; [exact Hd|].
    unfold handleUpload.
    destruct up as [u|err]; [destruct an as [pd|err]|];
      repeat apply commit_detached; exact Hd.
  - apply inEditor_detached; [|exact Hd]. intros _ es Hn.
    destruct (applyEdit_detached es e) as [-> ->]. now split.
  - apply inEditor_detached; [|exact Hd]. intros _ es Hn.
    rewrite (seekTo_detached time es Hn). now split.
  - apply inEditor_detached; [|exact Hd]. intros pd es Hn. now split.
  - destruct (editorScreen w) as [es|] eqn:Hed; [|exact Hd].
    unfold handleExport.
    destruct upd as [u|err]; [destruct ex as [r|err]|];
      repeat apply commit_detached; exact Hd.
  - destruct (editorScreen w); [|exact Hd]. now apply commit_detached.
  - destruct (error (app w)); [|exact Hd]. now apply commit_detached.
Qed.

(** In every reachable world the mounted editor has no media element and
    its currentTime is 0: seekTo, as the component stands, changes
    nothing. *)
Lemma reachable_detached (w : World) : reachable w -> detached w.
Proof.
  intros [evs ->]. unfold run.
  assert (H : detached initialWorld) by exact I.
  revert H. generalize initialWorld.
  induction evs as [|ev r IH]; intros w H; cbn; [exact H|].
  apply IH, step_detached, H.
Qed.

(** C3, as amended. In every reachable world seek sets nothing: no media
    element is under the ref of the mounted editor and seekTo acts only
    when one is, so whatever time is passed, no position is requested and
    currentTime is not updated; it stays 0, which lies between 0 and a
    duration that is not negative.  The clamp is in the timeline click
    handler: for a clicked time that is a number, the time it passes to
    seek is [Math.max(0, Math.min(time, duration))] and lies between 0
    and the duration.  So no seek sets a position or a currentTime below 0
    or above the duration. *)
Theorem seek_sets_nothing_timeline_click_clamps
    (w : World) (es : EditorState) (pd : ProjectData)
    (el : TimelineElement) (scale clientX : float) :
  reachable w ->
  editorScreen w = Some es ->
  projectData (app w) = Some pd ->
  (0 <=? totalDuration pd)%float = true ->
  is_nan ((clientX - rect_left el + scrollLeft el) / pixelsPerSecond scale)%float = false ->
  (forall time,
     step w (seek time) = w /\
     requestedPosition (seekTo time es) = None /\
     currentTime (seekTo time es) = 0%float /\
     (0 <=? currentTime (seekTo time es))%float = true /\
     (currentTime (seekTo time es) <=? totalDuration pd)%float = true) /\
  (exists time,
     handleTimelineClick (Some el) scale (totalDuration pd) clientX = Some time /\
     time = JS.Math_max 0
              (JS.Math_min
                 ((clientX - rect_left el + scrollLeft el) / pixelsPerSecond scale)%float
                 (totalDuration pd)) /\
     (0 <=? time)%float = true /\
     (time <=? totalDuration pd)%float = true) /\
  timelineClick pd (Some el) scale clientX es = es.
Proof.
  intros Hr Hed Hpd Hd Ht.
  apply reachable_detached in Hr. unfold detached in Hr. rewrite Hed in Hr.
  destruct Hr as [Hv Hc].
  assert (Hseek : forall time, seekTo time es = es)
    by (intros time; now apply seekTo_detached).
  split; [|split].
  - intros time. rewrite Hseek. unfold requestedPosition. rewrite Hv, Hc.
    repeat split; try assumption.
    cbn. unfold inEditor. rewrite Hed, Hpd, Hseek.
    destruct w. cbn in *. now rewrite Hed.
  - eexists. split; [reflexivity|]. split; [reflexivity|].
    now apply clamp_in_range.
  - unfold timelineClick, handleTimelineClick. apply Hseek.
Qed.

(** C3 at a sample: in the edited world on the clip of ten seconds, a
    seek to 12 changes nothing, and a click 600 pixels into the timeline
    at scale 1 passes the time 10, clamped from 12. *)
Lemma seek_sets_nothing_timeline_click_clamps_witness :
  step editedWorld (seek 12) = editedWorld /\
  handleTimelineClick (Some {| rect_left := 0; scrollLeft := 0 |}) 1
    (totalDuration tenSeconds) 600 = Some 10%float.
Proof.
  pose proof (seek_sets_nothing_timeline_click_clamps editedWorld
                {| segments := [segment 0 4 true false; segment 4 6 false true;
                                segment 6 10 true false];
                   currentTime := 0; isPlaying := false;
                   activeTab := timeline; videoRef := None |}
                tenSeconds {| rect_left := 0; scrollLeft := 0 |} 1 600) as H.
  destruct H as (Hseek & _ & _).
  - eexists. reflexivity.
  - reflexivity.
  - reflexivity.
  - vm_compute. reflexivity.
  - vm_compute. reflexivity.
  - split; [apply Hseek|vm_compute; reflexivity].
Defined.

(** C3, the counterexample. The claim has seek(5), on the clip of ten
    seconds, request the position 5 and set currentTime to 5 at once: 5 is
    its own clamp to the interval from 0 to 10.  In the edited world, which
    the workflow reaches by an upload, an analysis and a toggle, seek(5)
    requests no position and leaves currentTime at 0. *)
Lemma seek_leaves_currentTime_unset :
  reachable editedWorld /\
  JS.Math_max 0 (JS.Math_min 5 (totalDuration tenSeconds)) = 5%float /\
  option_map requestedPosition (editorScreen (step editedWorld (seek 5))) = Some None /\
  option_map currentTime (editorScreen (step editedWorld (seek 5))) = Some 0%float /\
  (0 =? 5)%float = false /\
  step editedWorld (seek 5) = editedWorld.
Proof.
  split; [eexists; reflexivity|]. vm_compute. repeat split.
Qed.

(** In every reachable world that shows the upload screen no analysis
    result is held and no editor is mounted. *)
Lemma idle_holds_no_project_data (w : World) :
  reachable w -> workflowState w = Idle ->
  projectData (app w) = None /\ editorScreen w = None.
Proof.
  intros Hr Hi. apply reachable_settled in Hr.
  unfold settled, workflowState in *.
  destruct (screen (app w)); try discriminate Hi. exact Hr.
Qed.

(** An upload or analysis that fails leaves the upload screen with the
    failure message set, and the message is not empty. *)
Lemma handleUpload_failure_message (up : Outcome UploadResult)
    (an : Outcome ProjectData) (w : World) :
  (forall pd, an <> resolved pd) \/ (forall u, up <> resolved u) ->
  screen (app (handleUpload up an w)) = upload /\
  exists msg, error (app (handleUpload up an w)) = Some msg /\ msg <> EmptyString.
Proof.
  intros Hfail. unfold handleUpload.
  destruct up as [u|err].
  - destruct an as [pd|err'].
    + destruct Hfail as [H|H]; [now elim (H pd)|now elim (H u)].
    + cbn. split; [reflexivity|]. eexists. split; [reflexivity|].
      apply errorMessage_not_empty. discriminate.
  - cbn. split; [reflexivity|]. eexists. split; [reflexivity|].
    apply errorMessage_not_empty. discriminate.
Qed.

(** After a failed analysis the identifier the upload returned stays in
    [projectId]. *)
Lemma handleUpload_analyze_failure_keeps_id (u : UploadResult) (err : ApiError) (w : World) :
  projectId (app (handleUpload (resolved u) (rejected err) w)) = Some (project_id u).
Proof. reflexivity. Qed.

(** The other two ways into the upload screen clear the identifier. *)
Lemma handleReset_clears (w : World) :
  screen (app (handleReset w)) = upload /\
  projectId (app (handleReset w)) = None /\
  projectData (app (handleReset w)) = None.
Proof. repeat split. Qed.

Lemma handleExport_success_clears (segs : list Segment) (r : ExportResult) (w : World) :
  screen (app (handleExport segs (resolved tt) (resolved r) w)) = upload /\
  projectId (app (handleExport segs (resolved tt) (resolved r) w)) = None /\
  projectData (app (handleExport segs (resolved tt) (resolved r) w)) = None.
Proof. repeat split. Qed.

(** C2, at the failing input. From the initial world, an upload that
    returns the identifier p1 followed by an analysis that fails leads to
    the upload screen with a failure message that is not empty and no
    analysis result, and with the identifier p1 still held in [projectId]:
    it is not cleared. *)
Theorem analyze_failure_keeps_project_id :
  let w := step initialWorld
             (submit ["clip.mp4"%string] 1%float
                     (resolved {| project_id := "p1"%string |})
                     (rejected networkError)) in
  workflowState w = Idle /\
  error (app w) = Some "Network Error"%string /\
  projectData (app w) = None /\
  projectId (app w) = Some "p1"%string.
Proof. vm_compute. repeat split. Qed.

(** An export that fails, at the persist call or at the export call,
    comes back to the editor mounted anew on the analysis result. *)
Lemma handleExport_failure_remounts (segs : list Segment) (upd : Outcome unit)
    (ex : Outcome ExportResult) (w : World) (pd : ProjectData) :
  projectData (app w) = Some pd ->
  (forall r, ex <> resolved r) \/ (forall u, upd <> resolved u) ->
  screen (app (handleExport segs upd ex w)) = editor /\
  projectData (app (handleExport segs upd ex w)) = Some pd /\
  projectId (app (handleExport segs upd ex w)) = projectId (app w) /\
  editorScreen (handleExport segs upd ex w) = Some (mountEditor pd).
Proof.
  intros Hpd Hfail. unfold handleExport, commit, render.
  destruct upd as [u|err].
  - destruct ex as [r|err'].
    + destruct Hfail as [H|H]; [now elim (H r)|now elim (H u)].
    + cbn. rewrite Hpd. repeat split.
  - cbn. rewrite Hpd. repeat split.
Qed.

(** C1, at the failing input. On the clip of ten seconds the silence from
    4 to 6 is toggled off and export is started; the persist call succeeds
    and the export call fails.  The workflow is back in Editing with the
    same project, and the segment store holds the segments of the analysis
    result: the second segment is kept again, the edit made before the
    export is gone. *)
Theorem export_failure_discards_edits :
  let w := step editedWorld (export (resolved tt) (rejected networkError)) in
  workflowState editedWorld = Editing /\
  option_map segments (editorScreen editedWorld)
    = Some [segment 0 4 true false; segment 4 6 false true; segment 6 10 true false] /\
  workflowState w = Editing /\
  projectId (app w) = Some "p1"%string /\
  error (app w) = Some "Network Error"%string /\
  option_map segments (editorScreen w)
    = Some [segment 0 4 true false; segment 4 6 true true; segment 6 10 true false] /\
  option_map segments (editorScreen w) <> option_map segments (editorScreen editedWorld).
Proof. vm_compute. repeat split. discriminate. Qed.

(* ================================================================== *)
(** ** Reset inside the workflow *)
(* ================================================================== *)

Lemma run_app (evs1 evs2 : list Event) (w : World) :
  run (evs1 ++ evs2) w = run evs2 (run evs1 w).
Proof. apply fold_left_app. Qed.

Lemma run_edits (edits : list Edit) (w : World) (pd : ProjectData) (es : EditorState) :
  projectData (app w) = Some pd ->
  editorScreen w = Some es ->
  run (map edit edits) w
    = {| app := app w; editorScreen := Some (applyEdits edits es) |}.
Proof.
  unfold run, applyEdits. revert w es.
  induction edits as [|e r IH]; intros w es Hpd Hed; cbn.
  - destruct w. cbn in *. now rewrite Hed.
  - assert (Hstep : inEditor (fun _ es0 => applyEdit es0 e) w
                    = {| app := app w; editorScreen := Some (applyEdit es e) |})
      by (unfold inEditor; now rewrite Hed, Hpd).
    rewrite Hstep. now rewrite (IH _ (applyEdit es e)).
Qed.

(** From a successful upload and analysis, through any edits, the reset
    button of the editor puts back the segments of the analysis result. *)
Lemma undoEdits_in_workflow (files : list string) (thr : float)
    (u : UploadResult) (pd : ProjectData) (edits : list Edit) :
  files <> [] ->
  let w := run (submit files thr (resolved u) (resolved pd)
                  :: map edit edits ++ [undoEdits]) initialWorld in
  workflowState w = Editing /\
  option_map segments (editorScreen w) = Some (JS.or_array (pd_segments pd)).
Proof.
  intros Hf. cbv zeta.
  change (run (?e :: ?r) ?w) with (run r (step w e)).
  rewrite run_app.
  destruct files as [|f fs]; [contradiction|].
  rewrite run_edits with (pd := pd) (es := mountEditor pd); try reflexivity.
  split; reflexivity.
Qed.

(* ================================================================== *)
(** ** More on Math.min and Math.max *)
(* ================================================================== *)

Lemma Math_min_le_l (x y : float) :
  is_nan x = false -> is_nan y = false ->
  FloatOrder.le (JS.Math_min x y) x.
Proof.
  intros Hx Hy. unfold JS.Math_min. rewrite Hx, Hy. cbn [orb].
  destruct (x <? y)%float eqn:E1; [now apply FloatOrderFacts.le_refl|].
  destruct (y <? x)%float eqn:E2.
  - apply FloatOrderFacts.lt_le_incl, FloatOrderFacts.ltb_lt, E2.
  - destruct (JS.is_neg_zero x); [now apply FloatOrderFacts.le_refl|].
    now apply FloatOrderFacts.not_lt_le.
Qed.

Lemma Math_max_not_nan (x y : float) :
  is_nan x = false -> is_nan y = false -> is_nan (JS.Math_max x y) = false.
Proof.
  intros Hx Hy. unfold JS.Math_max. rewrite Hx, Hy. cbn [orb].
  destruct (x <? y)%float; [exact Hy|].
  destruct (y <? x)%float; [exact Hx|].
  now destruct (JS.is_neg_zero x).
Qed.

Lemma Math_max_ge_l (x y : float) :
  is_nan x = false -> is_nan y = false ->
  FloatOrder.le x (JS.Math_max x y).
Proof.
  intros Hx Hy. unfold JS.Math_max. rewrite Hx, Hy. cbn [orb].
  destruct (x <? y)%float eqn:E1.
  - apply FloatOrderFacts.lt_le_incl, FloatOrderFacts.ltb_lt, E1.
  - destruct (y <? x)%float eqn:E2; [now apply FloatOrderFacts.le_refl|].
    destruct (JS.is_neg_zero x); [|now apply FloatOrderFacts.le_refl].
    now apply FloatOrderFacts.not_lt_le.
Qed.

Lemma Math_max_ge_r (x y : float) :
  is_nan x = false -> is_nan y = false ->
  FloatOrder.le y (JS.Math_max x y).
Proof.
  intros Hx Hy. unfold JS.Math_max. rewrite Hx, Hy. cbn [orb].
  destruct (x <? y)%float eqn:E1; [now apply FloatOrderFacts.le_refl|].
  destruct (y <? x)%float eqn:E2.
  - apply FloatOrderFacts.lt_le_incl, FloatOrderFacts.ltb_lt, E2.
  - destruct (JS.is_neg_zero x); [now apply FloatOrderFacts.le_refl|].
    now apply FloatOrderFacts.not_lt_le.
Qed.

(** Two numbers neither of which is below the other are the same number,
    or are two zeros. *)
Lemma SF_incomparable (a b : spec_float) :
  SFltb a b = false -> SFltb b a = false ->
  a = S754_nan \/ b = S754_nan \/ a = b \/
  (exists s t, a = S754_zero s /\ b = S754_zero t).
Proof.
  unfold SFltb, SFcompare.
  destruct a as [s|s| |s m e], b as [t|t| |t n f];
    try (intros; left; reflexivity);
    try (intros; right; left; reflexivity);
    try (intros; right; right; right; eexists; eexists; split; reflexivity).
  all: try (destruct s, t; intros H1 H2; try discriminate H1; try discriminate H2;
            right; right; left; reflexivity).
  all: try (destruct s; intros H1 H2; discriminate H1 || discriminate H2).
  all: try (destruct t; intros H1 H2; discriminate H1 || discriminate H2).
  destruct s, t; try (intros H1 H2; discriminate H1 || discriminate H2).
  - destruct (Z.compare_spec e f) as [He|He|He];
      destruct (Z.compare_spec f e) as [Hf|Hf|Hf]; try lia;
      try (intros H1 H2; discriminate H1 || discriminate H2).
    change (Pos.compare_cont Eq m n) with (Pos.compare m n).
    change (Pos.compare_cont Eq n m) with (Pos.compare n m).
    destruct (Pos.compare_spec m n) as [Hm|Hm|Hm];
      destruct (Pos.compare_spec n m) as [Hn|Hn|Hn]; try lia;
      try (intros H1 H2; cbn in H1, H2; discriminate H1 || discriminate H2).
    subst. intros _ _. right; right; left; reflexivity.
  - destruct (Z.compare_spec e f) as [He|He|He];
      destruct (Z.compare_spec f e) as [Hf|Hf|Hf]; try lia;
      try (intros H1 H2; discriminate H1 || discriminate H2).
    change (Pos.compare_cont Eq m n) with (Pos.compare m n).
    change (Pos.compare_cont Eq n m) with (Pos.compare n m).
    destruct (Pos.compare_spec m n) as [Hm|Hm|Hm];
      destruct (Pos.compare_spec n m) as [Hn|Hn|Hn]; try lia;
      try (intros H1 H2; cbn in H1, H2; discriminate H1 || discriminate H2).
    subst. intros _ _. right; right; left; reflexivity.
Qed.

Lemma is_neg_zero_zero (x : float) (s : bool) :
  Prim2SF x = S754_zero s -> JS.is_neg_zero x = s.
Proof.
  intros H. unfold JS.is_neg_zero. rewrite classify_spec, H. now destruct s.
Qed.

Lemma ltb_both_false (x y : float) :
  is_nan x = false -> is_nan y = false ->
  (x <? y)%float = false -> (y <? x)%float = false ->
  x = y \/ exists s t, Prim2SF x = S754_zero s /\ Prim2SF y = S754_zero t.
Proof.
  intros Hx Hy H1 H2.
  rewrite FloatAxioms.ltb_spec in H1, H2.
  destruct (SF_incomparable _ _ H1 H2) as [H|[H|[H|H]]].
  - apply FloatOrderFacts.is_nan_rank in Hx. destruct Hx as [p Hp].
    rewrite H in Hp. discriminate Hp.
  - apply FloatOrderFacts.is_nan_rank in Hy. destruct Hy as [p Hp].
    rewrite H in Hp. discriminate Hp.
  - left. now apply Prim2SF_inj.
  - right. exact H.
Qed.

Lemma ltb_asym (x y : float) :
  (x <? y)%float = true -> (y <? x)%float = true -> False.
Proof.
  intros H1 H2. apply FloatOrderFacts.ltb_lt in H1, H2.
  apply (FloatOrderFacts.lt_not_le _ _ H1), FloatOrderFacts.lt_le_incl, H2.
Qed.

(** The order of the arguments of Math.min and Math.max does not matter. *)
Lemma Math_min_comm (x y : float) : JS.Math_min x y = JS.Math_min y x.
Proof.
  unfold JS.Math_min. rewrite (orb_comm (is_nan y)).
  destruct (is_nan x) eqn:Hx, (is_nan y) eqn:Hy; cbn [orb]; try reflexivity.
  destruct (x <? y)%float eqn:E1, (y <? x)%float eqn:E2; try reflexivity.
  - destruct (ltb_asym _ _ E1 E2).
  - destruct (ltb_both_false x y Hx Hy E1 E2) as [->|(s & t & Hs & Ht)];
      [now destruct (JS.is_neg_zero y)|].
    rewrite (is_neg_zero_zero x s Hs), (is_neg_zero_zero y t Ht).
    destruct s, t; try reflexivity; apply Prim2SF_inj; congruence.
Qed.

Lemma Math_max_comm (x y : float) : JS.Math_max x y = JS.Math_max y x.
Proof.
  unfold JS.Math_max. rewrite (orb_comm (is_nan y)).
  destruct (is_nan x) eqn:Hx, (is_nan y) eqn:Hy; cbn [orb]; try reflexivity.
  destruct (x <? y)%float eqn:E1, (y <? x)%float eqn:E2; try reflexivity.
  - destruct (ltb_asym _ _ E1 E2).
  - destruct (ltb_both_false x y Hx Hy E1 E2) as [->|(s & t & Hs & Ht)];
      [now destruct (JS.is_neg_zero y)|].
    rewrite (is_neg_zero_zero x s Hs), (is_neg_zero_zero y t Ht).
    destruct s, t; try reflexivity; apply Prim2SF_inj; congruence.
Qed.

(* ================================================================== *)
(** ** The timeline: zoom and clicks on segments *)
(* ================================================================== *)

Ltac pick_level :=
  vm_compute; repeat (first [left; reflexivity | right]).

Lemma zoomClick_levels (s : float) (c : ZoomClick) :
  In s zoomLevels -> In (zoomClick s c) zoomLevels.
Proof.
  unfold zoomLevels. intros H.
  repeat (destruct H as [<-|H]; [destruct c; pick_level|]).
  destruct H.
Qed.

Lemma scaleAfter_levels (clicks : list ZoomClick) : In (scaleAfter clicks) zoomLevels.
Proof.
  unfold scaleAfter.
  assert (H : In initialScale zoomLevels) by pick_level.
  revert H. generalize initialScale.
  induction clicks as [|c r IH]; intros s H; cbn; [exact H|].
  apply IH, zoomClick_levels, H.
Qed.

(** X1. Whatever zoom buttons are pressed, and in whatever order, from the
    initial scale 1, the scale is one of the quarter steps from 0.5 to 3:
    it never leaves [[0.5, 3]], and pixelsPerSecond stays between 25 and
    150, so it is never zero and never NaN. *)
Theorem zoom_scale_stays_in_range (clicks : list ZoomClick) :
  In (scaleAfter clicks) zoomLevels /\
  (0.5 <=? scaleAfter clicks)%float = true /\
  (scaleAfter clicks <=? 3)%float = true /\
  (25 <=? pixelsPerSecond (scaleAfter clicks))%float = true /\
  (pixelsPerSecond (scaleAfter clicks) <=? 150)%float = true.
Proof.
  pose proof (scaleAfter_levels clicks) as H.
  split; [exact H|].
  generalize dependent (scaleAfter clicks). intros s H.
  unfold zoomLevels in H.
  repeat (destruct H as [<-|H]; [vm_compute; repeat split|]).
  destruct H.
Qed.

(** X2. On every scale the buttons can reach, zooming in and then out
    gives the scale back unless the scale was already 3, where the pair
    ends at 2.75; zooming out and then in gives it back unless the scale
    was already 0.5, where the pair ends at 0.75. *)
Theorem zoom_in_out_round_trip (clicks : list ZoomClick) :
  zoomOut (zoomIn (scaleAfter clicks))
    = (if (scaleAfter clicks <? 3)%float then scaleAfter clicks else 2.75%float) /\
  zoomIn (zoomOut (scaleAfter clicks))
    = (if (0.5 <? scaleAfter clicks)%float then scaleAfter clicks else 0.75%float).
Proof.
  pose proof (scaleAfter_levels clicks) as H.
  generalize dependent (scaleAfter clicks). intros s H.
  unfold zoomLevels in H.
  repeat (destruct H as [<-|H]; [vm_compute; split; reflexivity|]).
  destruct H.
Qed.

(** X3. When the computed sizes are numbers, the timeline is never drawn
    narrower than 300 pixels and a block never narrower than 4 pixels,
    however short the clip or the segment and whatever the zoom. *)
Theorem drawn_widths_have_floors (duration scale : float) (seg : Segment) :
  is_nan (duration * pixelsPerSecond scale)%float = false ->
  is_nan ((end_ seg - start seg) * pixelsPerSecond scale)%float = false ->
  (300 <=? timelineWidth duration scale)%float = true /\
  (duration * pixelsPerSecond scale <=? timelineWidth duration scale)%float = true /\
  (4 <=? blockWidth seg scale)%float = true.
Proof.
  intros Hd Hs. unfold timelineWidth, blockWidth.
  repeat split; apply FloatOrderFacts.leb_le.
  - apply Math_max_ge_r; [exact Hd|vm_compute; reflexivity].
  - apply Math_max_ge_l; [exact Hd|vm_compute; reflexivity].
  - apply Math_max_ge_r; [exact Hs|vm_compute; reflexivity].
Qed.

Lemma drawn_widths_have_floors_witness :
  (300 <=? timelineWidth 2 0.5)%float = true /\
  (4 <=? blockWidth (segment 1 1.0625 true false) 0.5)%float = true.
Proof.
  pose proof (drawn_widths_have_floors 2 0.5 (segment 1 1.0625 true false)) as H.
  destruct H as (H1 & _ & H3); [vm_compute; reflexivity|vm_compute; reflexivity|].
  split; assumption.
Defined.

Lemma groupSegments_nth_error (segs : list Segment) (k : nat) :
  nth_error (groupSegments segs) k
  = option_map (fun seg => {| grouped := seg; originalIndex := k |}) (nth_error segs k).
Proof. unfold groupSegments, JS.mapi. now rewrite mapi_from_nth_error. Qed.

Lemma flipKeep_differs (seg : Segment) : flipKeep seg <> seg.
Proof.
  intros H. apply (f_equal keep) in H. cbn in H.
  destruct (keep seg); discriminate H.
Qed.

(** X4. A click on the [k]-th block of the timeline and a click on the
    [k]-th item of the segment list do the same thing: the segment drawn
    there has its [keep] flipped, every other segment is as it was, and the
    store has changed.  The index a click passes is never out of range. *)
Theorem clicks_toggle_the_clicked_segment
    (k : nat) (es : EditorState) (seg : Segment) :
  nth_error (segments es) k = Some seg ->
  timelineBlockClick k es = listItemClick k es /\
  nth_error (segments (timelineBlockClick k es)) k = Some (flipKeep seg) /\
  (forall i, i <> k ->
     nth_error (segments (timelineBlockClick k es)) i = nth_error (segments es) i) /\
  timelineBlockClick k es <> es.
Proof.
  intros Hk. unfold timelineBlockClick, listItemClick.
  rewrite groupSegments_nth_error, Hk. cbn [option_map originalIndex].
  assert (Hflip : nth_error (segments (toggleSegment (Z.of_nat k) es)) k
                  = Some (flipKeep seg)).
  { cbn. rewrite toggleSegment_list_nth_error, Hk. cbn. now rewrite Z.eqb_refl. }
  repeat split.
  - exact Hflip.
  - intros i Hi. cbn. rewrite toggleSegment_list_nth_error.
    destruct (nth_error (segments es) i); cbn; [|reflexivity].
    destruct (Z.eqb_spec (Z.of_nat i) (Z.of_nat k)); [lia|reflexivity].
  - intros Heq. rewrite Heq, Hk in Hflip.
    injection Hflip as Hflip. symmetry in Hflip. now apply flipKeep_differs in Hflip.
Qed.

Lemma clicks_toggle_the_clicked_segment_witness :
  nth_error (segments (timelineBlockClick 2 (mountEditor tenSeconds))) 2
    = Some (segment 6 10 false false).
Proof.
  apply (clicks_toggle_the_clicked_segment 2 (mountEditor tenSeconds)
           (segment 6 10 true false)).
  reflexivity.
Defined.

(* ================================================================== *)
(** ** The transcript: selection gesture *)
(* ================================================================== *)

Lemma SFcompare_refl (a : spec_float) :
  a <> S754_nan -> SFcompare a a = Some Eq.
Proof.
  destruct a as [s|s| |s m e]; intros H; cbn; try reflexivity.
  - now destruct s.
  - now elim H.
  - rewrite Z.compare_refl.
    change (Pos.compare_cont Eq m m) with (Pos.compare m m).
    rewrite Pos.compare_refl. now destruct s.
Qed.

(** There is one NaN. *)
Lemma is_nan_nan (x : float) : is_nan x = true -> x = nan.
Proof.
  intros H. apply Prim2SF_inj.
  change (Prim2SF nan) with S754_nan.
  unfold is_nan in H. rewrite FloatAxioms.eqb_spec in H. unfold SFeqb in H.
  destruct (Prim2SF x) as [s|s| |s m e] eqn:E; try reflexivity;
    rewrite SFcompare_refl in H by discriminate; discriminate H.
Qed.

Lemma ltb_irrefl (x : float) : (x <? x)%float = false.
Proof.
  destruct (x <? x)%float eqn:E; [|reflexivity].
  destruct (ltb_asym _ _ E E).
Qed.

Lemma Math_min_idem (x : float) : JS.Math_min x x = x.
Proof.
  unfold JS.Math_min. destruct (is_nan x) eqn:Hx; cbn [orb].
  - symmetry. now apply is_nan_nan.
  - rewrite ltb_irrefl. now destruct (JS.is_neg_zero x).
Qed.

Lemma Math_max_idem (x : float) : JS.Math_max x x = x.
Proof.
  unfold JS.Math_max. destruct (is_nan x) eqn:Hx; cbn [orb].
  - symmetry. now apply is_nan_nan.
  - rewrite ltb_irrefl. now destruct (JS.is_neg_zero x).
Qed.

Lemma transcriptStep_coherent (transcript : list Word) (ts : TranscriptState)
    (ev : TranscriptEvent) :
  selectionCoherent ts -> selectionCoherent (fst (transcriptStep transcript ts ev)).
Proof.
  unfold selectionCoherent. intros H.
  destruct ev as [w|w| |w|w|id|target| | |]; cbn.
  - eexists; eexists; split; reflexivity.
  - unfold handleWordHover.
    destruct (isSelecting ts) eqn:Hs; [|now rewrite Hs].
    destruct H as (a & f & Ha & Hf). rewrite Ha. cbn.
    eexists; eexists; split; reflexivity.
  - destruct (isSelecting ts) eqn:Hs; cbn; [split; reflexivity|now rewrite Hs].
  - exact H.
  - exact H.
  - unfold timeoutElapses.
    destruct (find _ (pendingTimers ts)) as [[i w]|]; [|exact H].
    cbn. eexists; eexists; split; reflexivity.
  - unfold handleTouchMove.
    destruct (isSelecting ts) eqn:Hs; [|now rewrite Hs].
    destruct target as [index|]; [|now rewrite Hs].
    destruct (nth_error transcript index) as [w|]; [|now rewrite Hs].
    cbn. rewrite ?Hs. destruct H as (a & f & Ha & Hf).
    eexists; eexists; split; [exact Ha|reflexivity].
  - unfold handleTouchEnd.
    destruct (isSelecting ts) eqn:Hs; cbn; [split; reflexivity|exact H].
  - destruct (isSelecting ts) eqn:Hs; cbn; [split; reflexivity|now rewrite Hs].
  - destruct (isSelecting ts) eqn:Hs; cbn; [split; reflexivity|now rewrite Hs].
Qed.

Lemma transcriptRun_coherent (transcript : list Word) (evs : list TranscriptEvent)
    (ts : TranscriptState) :
  selectionCoherent ts -> selectionCoherent (fst (transcriptRun transcript evs ts)).
Proof.
  revert ts. induction evs as [|ev r IH]; intros ts H; cbn; [exact H|].
  pose proof (transcriptStep_coherent transcript ts ev H) as H1.
  destruct (transcriptStep transcript ts ev) as [ts1 calls1]. cbn in H1.
  specialize (IH ts1 H1).
  destruct (transcriptRun transcript r ts1) as [ts2 calls2]. exact IH.
Qed.

(** X5. After any sequence of mouse, touch, timer and button events from
    the first render, Transcript is selecting exactly when both ends of
    the selection are set.  So every release while selecting, by mouse-up,
    by touch-end or by the Remove button, calls onToggleRange exactly once,
    with [Math.min] of the starts and [Math.max] of the ends of the two
    words held in selectionStart and selectionEnd, and leaves nothing
    selected; and while not selecting no word is shown as selected. *)
Theorem selection_ends_are_set_while_selecting
    (transcript : list Word) (evs : list TranscriptEvent) :
  selectionCoherent (fst (transcriptRun transcript evs initialTranscript)) /\
  (isSelecting (fst (transcriptRun transcript evs initialTranscript)) = true ->
   exists a f,
     selectionStart (fst (transcriptRun transcript evs initialTranscript)) = Some a /\
     selectionEnd (fst (transcriptRun transcript evs initialTranscript)) = Some f /\
     forall release,
       release = mouseUp \/ release = touchEnd \/ release = removeButton ->
       snd (transcriptStep transcript
              (fst (transcriptRun transcript evs initialTranscript)) release)
       = [onToggleRange (JS.Math_min (word_start a) (word_start f))
                        (JS.Math_max (word_end a) (word_end f))] /\
       isSelecting (fst (transcriptStep transcript
              (fst (transcriptRun transcript evs initialTranscript)) release)) = false /\
       selectionStart (fst (transcriptStep transcript
              (fst (transcriptRun transcript evs initialTranscript)) release)) = None /\
       selectionEnd (fst (transcriptStep transcript
              (fst (transcriptRun transcript evs initialTranscript)) release)) = None) /\
  (isSelecting (fst (transcriptRun transcript evs initialTranscript)) = false ->
   forall w,
     isWordInSelection (fst (transcriptRun transcript evs initialTranscript)) w = false).
Proof.
  assert (H : selectionCoherent (fst (transcriptRun transcript evs initialTranscript))).
  { apply transcriptRun_coherent. cbn. split; reflexivity. }
  split; [exact H|].
  generalize dependent (fst (transcriptRun transcript evs initialTranscript)).
  intros ts H. unfold selectionCoherent in H. split; intros Hs; rewrite Hs in H.
  - destruct H as (a & f & Ha & Hf). exists a, f.
    split; [exact Ha|]. split; [exact Hf|].
    intros release [->|[->| ->]]; cbn; unfold handleTouchEnd; rewrite ?Hs;
      unfold handleSelectionEnd, selectionRange; cbn; rewrite Ha, Hf;
      repeat split.
  - destruct H as [Ha Hf]. intros w.
    unfold isWordInSelection, selectionRange. now rewrite Ha.
Qed.

(** X5 at a sample: after a press on one word and a move onto another,
    each of the three releases commits the range from 1.0 to 2.0. *)
Lemma selection_ends_are_set_while_selecting_witness :
  snd (transcriptStep []
         (fst (transcriptRun []
                 [mouseDown {| word_text := "there"; word_start := 1.5; word_end := 2.0 |};
                  mouseEnter {| word_text := "hello"; word_start := 1.0; word_end := 1.4 |}]
                 initialTranscript))
         touchEnd)
  = [onToggleRange 1.0 2.0].
Proof.
  pose proof (selection_ends_are_set_while_selecting []
                [mouseDown {| word_text := "there"; word_start := 1.5; word_end := 2.0 |};
                 mouseEnter {| word_text := "hello"; word_start := 1.0; word_end := 1.4 |}])
    as (_ & H & _).
  destruct (H eq_refl) as (a & f & Ha & Hf & Hrel).
  injection Ha as <-. injection Hf as <-.
  destruct (Hrel touchEnd (or_intror (or_introl eq_refl))) as [Hcall _].
  rewrite Hcall. vm_compute. reflexivity.
Defined.

(** X6. The direction of a drag does not matter: pressing on [a], moving
    to [f] and releasing commits the same single range as pressing on [f],
    moving to [a] and releasing, and both leave nothing selected. *)
Theorem drag_direction_does_not_matter
    (transcript : list Word) (ts : TranscriptState) (a f : Word) :
  snd (transcriptRun transcript [mouseDown a; mouseEnter f; mouseUp] ts)
    = [onToggleRange (JS.Math_min (word_start a) (word_start f))
                     (JS.Math_max (word_end a) (word_end f))] /\
  snd (transcriptRun transcript [mouseDown f; mouseEnter a; mouseUp] ts)
    = snd (transcriptRun transcript [mouseDown a; mouseEnter f; mouseUp] ts) /\
  isSelecting (fst (transcriptRun transcript [mouseDown a; mouseEnter f; mouseUp] ts))
    = false /\
  selectionRange (fst (transcriptRun transcript [mouseDown a; mouseEnter f; mouseUp] ts))
    = None.
Proof.
  cbn. repeat split.
  now rewrite (Math_min_comm (word_start f)), (Math_max_comm (word_end f)).
Qed.

(** X7. A touch that ends before its timer elapses is no selection: with
    nothing selected and no timer pending, touch-start on a word followed
    by touch-end makes no callback, leaves nothing selected and no timer
    pending, and a timeout arriving afterwards changes nothing. *)
Theorem short_touch_never_toggles
    (transcript : list Word) (ts : TranscriptState) (w : Word) :
  isSelecting ts = false ->
  pendingTimers ts = [] ->
  snd (transcriptRun transcript [touchStart w; touchEnd] ts) = [] /\
  isSelecting (fst (transcriptRun transcript [touchStart w; touchEnd] ts)) = false /\
  selectionStart (fst (transcriptRun transcript [touchStart w; touchEnd] ts))
    = selectionStart ts /\
  selectionEnd (fst (transcriptRun transcript [touchStart w; touchEnd] ts))
    = selectionEnd ts /\
  pendingTimers (fst (transcriptRun transcript [touchStart w; touchEnd] ts)) = [] /\
  (forall id,
     transcriptStep transcript
       (fst (transcriptRun transcript [touchStart w; touchEnd] ts)) (timeout id)
     = (fst (transcriptRun transcript [touchStart w; touchEnd] ts), [])).
Proof.
  intros Hs Hp. cbn. unfold handleTouchEnd, clearTimeout. cbn.
  rewrite Hs, Hp, Pos.eqb_refl. cbn.
  repeat split.
Qed.

Lemma short_touch_never_toggles_witness :
  snd (transcriptRun [] [touchStart {| word_text := "hello"; word_start := 1.0;
                                       word_end := 1.4 |}; touchEnd]
         initialTranscript) = [].
Proof.
  apply (short_touch_never_toggles [] initialTranscript
           {| word_text := "hello"; word_start := 1.0; word_end := 1.4 |});
    reflexivity.
Defined.

(** X8. A long press, a drag and a release: with nothing selected,
    touch-start on [a], the timer of that touch elapsing, a move onto the
    word of index [j] and touch-end make exactly one callback,
    onToggleRange from the smaller start to the larger end of the two
    words, and leave nothing selected. *)
Theorem long_press_drag_release_toggles_once
    (transcript : list Word) (ts : TranscriptState) (a f : Word) (j : nat) :
  isSelecting ts = false ->
  nth_error transcript j = Some f ->
  snd (transcriptRun transcript
         [touchStart a; timeout (nextTimer ts); touchMove (Some j); touchEnd] ts)
    = [onToggleRange (JS.Math_min (word_start a) (word_start f))
                     (JS.Math_max (word_end a) (word_end f))] /\
  isSelecting (fst (transcriptRun transcript
         [touchStart a; timeout (nextTimer ts); touchMove (Some j); touchEnd] ts))
    = false /\
  selectionRange (fst (transcriptRun transcript
         [touchStart a; timeout (nextTimer ts); touchMove (Some j); touchEnd] ts))
    = None.
Proof.
  intros Hs Hj. cbn. unfold timeoutElapses. cbn. rewrite Pos.eqb_refl. cbn.
  unfold handleTouchMove. cbn. rewrite Hj. cbn.
  repeat split.
Qed.

Lemma long_press_drag_release_toggles_once_witness :
  snd (transcriptRun
         [{| word_text := "hello"; word_start := 1.0; word_end := 1.4 |};
          {| word_text := "there"; word_start := 1.5; word_end := 2.0 |}]
         [touchStart {| word_text := "there"; word_start := 1.5; word_end := 2.0 |};
          timeout (nextTimer initialTranscript); touchMove (Some 0%nat); touchEnd]
         initialTranscript)
    = [onToggleRange (JS.Math_min 1.5 1.0) (JS.Math_max 2.0 1.4)].
Proof.
  apply (long_press_drag_release_toggles_once
           [{| word_text := "hello"; word_start := 1.0; word_end := 1.4 |};
            {| word_text := "there"; word_start := 1.5; word_end := 2.0 |}]
           initialTranscript
           {| word_text := "there"; word_start := 1.5; word_end := 2.0 |}
           {| word_text := "hello"; word_start := 1.0; word_end := 1.4 |} 0);
    reflexivity.
Defined.

(** X9. With the mouse there is no hold threshold: pressing and releasing
    on one word, whatever was selected before, calls onToggleRange with the
    start and the end of that word, and the click that follows seeks to
    the start of the word.  On the editor this flips every segment that
    lies inside the word and then seeks. *)
Theorem mouse_click_toggles_and_seeks
    (transcript : list Word) (ts : TranscriptState) (w : Word) (es : EditorState) :
  snd (transcriptRun transcript [mouseDown w; mouseUp; wordClick w] ts)
    = [onToggleRange (word_start w) (word_end w); onSeek (word_start w)] /\
  fold_left answer
    (snd (transcriptRun transcript [mouseDown w; mouseUp; wordClick w] ts)) es
    = seekTo (word_start w) (toggleWordRange (word_start w) (word_end w) es).
Proof.
  cbn. now rewrite Math_min_idem, Math_max_idem.
Qed.

(** X10. For two words whose times are numbers with [start <= end], the
    range a selection from one to the other commits is never inverted, and
    both words are shown as selected while the selection lasts. *)
Theorem selection_range_is_ordered_and_shows_its_ends
    (ts : TranscriptState) (a f : Word) :
  (word_start a <=? word_end a)%float = true ->
  (word_start f <=? word_end f)%float = true ->
  selectionStart ts = Some a ->
  selectionEnd ts = Some f ->
  (JS.Math_min (word_start a) (word_start f)
     <=? JS.Math_max (word_end a) (word_end f))%float = true /\
  isWordInSelection ts a = true /\
  isWordInSelection ts f = true.
Proof.
  intros Ha Hf Hsa Hsf.
  apply FloatOrderFacts.leb_le in Ha, Hf.
  destruct (FloatOrderFacts.le_not_nan _ _ Ha) as [Has Hae].
  destruct (FloatOrderFacts.le_not_nan _ _ Hf) as [Hfs Hfe].
  pose proof (Math_min_le_l _ _ Has Hfs) as H1.
  pose proof (Math_min_le _ _ Has Hfs) as [_ H2].
  pose proof (Math_max_ge_l _ _ Hae Hfe) as H3.
  pose proof (Math_max_ge_r _ _ Hae Hfe) as H4.
  unfold isWordInSelection, selectionRange, JS.ge, JS.le. rewrite Hsa, Hsf.
  repeat split.
  - apply FloatOrderFacts.leb_le.
    eapply FloatOrderFacts.le_trans; [exact H1|].
    eapply FloatOrderFacts.le_trans; [exact Ha|exact H3].
  - apply andb_true_iff. split; apply FloatOrderFacts.leb_le; assumption.
  - apply andb_true_iff. split; apply FloatOrderFacts.leb_le; assumption.
Qed.

Lemma selection_range_is_ordered_and_shows_its_ends_witness :
  isWordInSelection
    (handleWordHover {| word_text := "there"; word_start := 1.5; word_end := 2.0 |}
       (handleWordLongPress
          {| word_text := "hello"; word_start := 1.0; word_end := 1.4 |}
          initialTranscript))
    {| word_text := "hello"; word_start := 1.0; word_end := 1.4 |} = true.
Proof.
  apply (selection_range_is_ordered_and_shows_its_ends
           (handleWordHover {| word_text := "there"; word_start := 1.5; word_end := 2.0 |}
              (handleWordLongPress
                 {| word_text := "hello"; word_start := 1.0; word_end := 1.4 |}
                 initialTranscript))
           {| word_text := "hello"; word_start := 1.0; word_end := 1.4 |}
           {| word_text := "there"; word_start := 1.5; word_end := 2.0 |});
    vm_compute; reflexivity.
Defined.

(** X11. A word that ends before another starts is never shown as playing
    together with it; the ends of a word count, so at the instant two words
    share both are shown as playing. *)
Theorem playing_words (now s1 e1 s2 e2 : float) :
  (e1 <? s2)%float = true ->
  isWordPlaying now s1 e1 = true ->
  isWordPlaying now s2 e2 = false /\
  ((s1 <=? e1)%float = true -> (e1 <=? e2)%float = true ->
   isWordPlaying e1 s1 e1 = true /\ isWordPlaying e1 e1 e2 = true).
Proof.
  intros Hlt H1. unfold isWordPlaying, JS.ge, JS.le in *.
  apply andb_true_iff in H1. destruct H1 as [_ H1]. split.
  - destruct (s2 <=? now)%float eqn:E; [|reflexivity].
    exfalso.
    apply FloatOrderFacts.leb_le in H1, E. apply FloatOrderFacts.ltb_lt in Hlt.
    apply (FloatOrderFacts.lt_not_le _ _ Hlt).
    eapply FloatOrderFacts.le_trans; eassumption.
  - intros H12 H22.
    assert (Hr : (e1 <=? e1)%float = true).
    { apply FloatOrderFacts.leb_le, FloatOrderFacts.le_refl.
      apply FloatOrderFacts.leb_le in H22.
      now destruct (FloatOrderFacts.le_not_nan _ _ H22). }
    now rewrite H12, H22, Hr.
Qed.

Lemma playing_words_witness :
  isWordPlaying 1.2 1.5 2.0 = false /\
  isWordPlaying 1.4 1.0 1.4 = true /\ isWordPlaying 1.4 1.4 2.0 = true.
Proof.
  pose proof (playing_words 1.2 1.0 1.4 1.5 2.0) as H.
  destruct H as [H1 _]; [vm_compute; reflexivity|vm_compute; reflexivity|].
  pose proof (playing_words 1.2 1.0 1.4 1.5 2.0) as H.
  destruct H as [_ H2]; [vm_compute; reflexivity|vm_compute; reflexivity|].
  split; [exact H1|].
  apply H2; vm_compute; reflexivity.
Defined.

(** X12. Display follows mutation: when toggleRange removes a kept
    segment, every word lying inside that segment is displayed as removed
    afterwards. *)
Theorem word_in_toggled_segment_is_shown_removed
    (a b : float) (es : EditorState) (s : Segment) (wstart wend : float) :
  In s (segments es) ->
  keep s = true ->
  contained a b s ->
  (start s <=? wstart)%float = true ->
  (wend <=? end_ s)%float = true ->
  isWordRemoved (segments (toggleWordRange a b es)) wstart wend = true.
Proof.
  intros Hin Hk Hc Hs He.
  unfold isWordRemoved, JS.some, removedRanges. apply existsb_exists.
  exists {| range_start := start s; range_end := end_ s |}. split.
  - apply in_map_iff. exists (flipKeep s). split; [reflexivity|].
    apply filter_In. split.
    + cbn. unfold toggleWordRange_list. apply in_map_iff. exists s.
      split; [|exact Hin].
      now rewrite (proj2 (inRange_contained a b s) Hc).
    + cbn. now rewrite Hk.
  - unfold JS.ge, JS.le. cbn. now rewrite Hs, He.
Qed.

Lemma word_in_toggled_segment_is_shown_removed_witness :
  isWordRemoved (segments (toggleWordRange 0 4 (mountEditor tenSeconds))) 1.0 1.4 = true.
Proof.
  apply (word_in_toggled_segment_is_shown_removed 0 4 (mountEditor tenSeconds)
           (segment 0 4 true false) 1.0 1.4).
  - left. reflexivity.
  - reflexivity.
  - split; vm_compute; reflexivity.
  - vm_compute. reflexivity.
  - vm_compute. reflexivity.
Defined.

(* ================================================================== *)
(** ** The upload screen: the list of files *)
(* ================================================================== *)

Lemma filteri_from_keep_all {A : Type} (p : A -> nat -> bool) (l : list A) (i : nat) :
  (forall n x, nth_error l n = Some x -> p x (i + n)%nat = true) ->
  filteri_from p i l = l.
Proof.
  revert i. induction l as [|x r IH]; intros i H; cbn; [reflexivity|].
  rewrite <- (Nat.add_0_r i) at 1. rewrite (H 0%nat x eq_refl).
  f_equal. apply IH. intros n y Hn.
  rewrite Nat.add_succ_comm. now apply (H (S n)).
Qed.

Lemma filteri_from_In {A : Type} (p : A -> nat -> bool) (l : list A) (i : nat) (x : A) :
  In x (filteri_from p i l) -> In x l.
Proof.
  revert i. induction l as [|y r IH]; intros i H; cbn in *; [exact H|].
  destruct (p y i); [destruct H as [H|H]; [now left|right; eauto]|right; eauto].
Qed.

Lemma removeFile_from (k : nat) (files : list File) (i : nat) (f : File) :
  nth_error files k = Some f ->
  filteri_from (fun _ j => negb (Z.of_nat j =? Z.of_nat (i + k))%Z) i files
  = firstn k files ++ skipn (S k) files.
Proof.
  revert i k. induction files as [|x r IH]; intros i [|k] Hk; try discriminate Hk.
  - cbn. rewrite Nat.add_0_r, Z.eqb_refl. cbn.
    apply filteri_from_keep_all. intros n y _.
    destruct (Z.eqb_spec (Z.of_nat (S i + n)) (Z.of_nat i)); [lia|reflexivity].
  - cbn. destruct (Z.eqb_spec (Z.of_nat i) (Z.of_nat (i + S k))); [lia|].
    cbn. f_equal. rewrite <- Nat.add_succ_comm. now apply IH.
Qed.

(** X13. The remove button of row [k] takes exactly that file out of the
    list and keeps the others in their order; an index that is no row of
    the list, negative or past the end, removes nothing. *)
Theorem removeFile_removes_exactly_one (index : Z) (files : list File) :
  (forall k f,
     index = Z.of_nat k -> nth_error files k = Some f ->
     removeFile index files = firstn k files ++ skipn (S k) files /\
     S (List.length (removeFile index files)) = List.length files) /\
  ((index < 0 \/ Z.of_nat (List.length files) <= index)%Z ->
   removeFile index files = files).
Proof.
  split.
  - intros k f -> Hk. unfold removeFile.
    change (Z.of_nat k) with (Z.of_nat (0 + k)).
    rewrite (removeFile_from k files 0 f Hk). split; [reflexivity|].
    assert (Hlt : (k < List.length files)%nat) by (apply nth_error_Some; congruence).
    rewrite length_app, length_firstn, length_skipn. lia.
  - intros Hout. unfold removeFile. apply filteri_from_keep_all.
    intros n x Hn.
    assert (n < List.length files)%nat by (apply nth_error_Some; congruence).
    destruct (Z.eqb_spec (Z.of_nat (0 + n)) index); [lia|reflexivity].
Qed.

Lemma removeFile_removes_exactly_one_witness :
  removeFile 1 [{| file_name := "a.mp4"; file_type := "video/mp4" |};
                {| file_name := "b.mov"; file_type := "video/quicktime" |};
                {| file_name := "c.mp4"; file_type := "video/mp4" |}]
  = [{| file_name := "a.mp4"; file_type := "video/mp4" |};
     {| file_name := "c.mp4"; file_type := "video/mp4" |}] /\
  removeFile 3 [{| file_name := "a.mp4"; file_type := "video/mp4" |}]
  = [{| file_name := "a.mp4"; file_type := "video/mp4" |}].
Proof.
  split.
  - destruct (proj1 (removeFile_removes_exactly_one 1
                [{| file_name := "a.mp4"; file_type := "video/mp4" |};
                 {| file_name := "b.mov"; file_type := "video/quicktime" |};
                 {| file_name := "c.mp4"; file_type := "video/mp4" |}]) 1%nat
             {| file_name := "b.mov"; file_type := "video/quicktime" |}
             eq_refl eq_refl) as [H _].
    exact H.
  - apply (proj2 (removeFile_removes_exactly_one 3 _)). right. cbn. lia.
Defined.

Lemma filesStep_videos (files : list File) (ev : FilesEvent) :
  Forall (fun f => isVideo f = true) files ->
  Forall (fun f => isVideo f = true) (filesStep files ev).
Proof.
  intros H. destruct ev as [newFiles|index]; cbn.
  - unfold handleFiles. apply Forall_app. split; [exact H|].
    apply Forall_forall. intros f Hf. now apply filter_In in Hf.
  - destruct (nth_error files index) as [row|]; [|exact H].
    apply Forall_forall. intros x Hx. unfold removeFile in Hx.
    apply filteri_from_In in Hx. rewrite Forall_forall in H. now apply H.
Qed.

Lemma filesRun_videos (evs : list FilesEvent) (files : list File) :
  Forall (fun f => isVideo f = true) files ->
  Forall (fun f => isVideo f = true) (fold_left filesStep evs files).
Proof.
  revert files. induction evs as [|ev r IH]; intros files H; cbn; [exact H|].
  apply IH, filesStep_videos, H.
Qed.

(** X14. Whatever files are chosen or dropped and whatever rows are
    removed, starting from the empty list, a submission passes on exactly
    the current list, which is not empty and holds only files whose type
    starts with video/; with an empty list nothing is submitted. *)
Theorem only_videos_are_submitted
    (evs : list FilesEvent) (silenceThreshold : float)
    (files : list File) (threshold : float) :
  handleSubmit (fold_left filesStep evs []) silenceThreshold = Some (files, threshold) ->
  files = fold_left filesStep evs [] /\
  files <> [] /\
  Forall (fun f => isVideo f = true) files /\
  threshold = silenceThreshold.
Proof.
  intros H.
  assert (Hv : Forall (fun f => isVideo f = true) (fold_left filesStep evs []))
    by (apply filesRun_videos; constructor).
  unfold handleSubmit in H.
  destruct (fold_left filesStep evs []) as [|f r]; [discriminate H|].
  injection H as <- <-. repeat split; [discriminate|exact Hv].
Qed.

Lemma only_videos_are_submitted_witness :
  handleSubmit
    (fold_left filesStep
       [filesChosen [{| file_name := "a.mp4"; file_type := "video/mp4" |};
                     {| file_name := "notes.txt"; file_type := "text/plain" |}]] [])
    1%float
  = Some ([{| file_name := "a.mp4"; file_type := "video/mp4" |}], 1%float) /\
  Forall (fun f => isVideo f = true)
    [{| file_name := "a.mp4"; file_type := "video/mp4" |}].
Proof.
  split; [reflexivity|].
  apply (only_videos_are_submitted
           [filesChosen [{| file_name := "a.mp4"; file_type := "video/mp4" |};
                         {| file_name := "notes.txt"; file_type := "text/plain" |}]]
           1%float [{| file_name := "a.mp4"; file_type := "video/mp4" |}] 1%float).
  reflexivity.
Defined.

(* ================================================================== *)
(** ** The download address *)
(* ================================================================== *)

Lemma string_length_append (s t : string) :
  String.length (s ++ t) = (String.length s + String.length t)%nat.
Proof. induction s as [|c r IH]; cbn; [reflexivity|now rewrite IH]. Qed.

Lemma append_not_self (pre s : string) : pre <> EmptyString -> (pre ++ s)%string <> s.
Proof.
  intros Hpre H. apply (f_equal String.length) in H.
  rewrite string_length_append in H.
  destruct pre; [now elim Hpre|]. cbn in H. lia.
Qed.

(** X15. The download address always ends with the path it was given: a
    path that starts with http comes back as it is; any other path comes
    back behind API_BASE, which is never empty, also when VITE_API_URL is
    set to the empty string, so it never comes back unchanged. *)
Theorem getDownloadUrl_keeps_the_path (VITE_API_URL : option string) (downloadPath : string) :
  API_BASE VITE_API_URL <> EmptyString /\
  (String.prefix "http" downloadPath = true ->
   getDownloadUrl VITE_API_URL downloadPath = downloadPath) /\
  (String.prefix "http" downloadPath = false ->
   getDownloadUrl VITE_API_URL downloadPath
     = (API_BASE VITE_API_URL ++ downloadPath)%string /\
   getDownloadUrl VITE_API_URL downloadPath <> downloadPath) /\
  (VITE_API_URL = None \/ VITE_API_URL = Some EmptyString ->
   API_BASE VITE_API_URL = "/api"%string).
Proof.
  assert (Hbase : API_BASE VITE_API_URL <> EmptyString).
  { unfold API_BASE, JS.or_string. destruct VITE_API_URL as [[|c r]|]; discriminate. }
  unfold getDownloadUrl. repeat split.
  - exact Hbase.
  - intros ->. reflexivity.
  - now rewrite H.
  - rewrite H. now apply append_not_self.
  - intros [->| ->]; reflexivity.
Qed.

Lemma getDownloadUrl_keeps_the_path_witness :
  getDownloadUrl None "/download/p1" = "/api/download/p1"%string /\
  getDownloadUrl None "https://cdn.example/p1.mp4" = "https://cdn.example/p1.mp4"%string.
Proof.
  pose proof (getDownloadUrl_keeps_the_path None "/download/p1") as (_ & _ & H1 & _).
  pose proof (getDownloadUrl_keeps_the_path None "https://cdn.example/p1.mp4")
    as (_ & H2 & _ & _).
  split; [apply H1; reflexivity|apply H2; reflexivity].
Defined.

(* ================================================================== *)
(** ** The algebra of edits *)
(* ================================================================== *)

Lemma setSegments_twice (f : list Segment -> list Segment) (es : EditorState) :
  f (f (segments es)) = segments es -> setSegments f (setSegments f es) = es.
Proof. intros H. destruct es. unfold setSegments. cbn in *. now rewrite H. Qed.

(** X16. Toggling the same index twice, or the same range twice, gives
    back the editor state exactly as it was. *)
Theorem toggling_twice_restores (index : Z) (a b : float) (es : EditorState) :
  toggleSegment index (toggleSegment index es) = es /\
  toggleWordRange a b (toggleWordRange a b es) = es.
Proof.
  split; apply setSegments_twice.
  - apply toggleSegment_list_involutive.
  - apply toggleWordRange_list_involutive.
Qed.

Lemma selects_flipKeep (e : Edit) (seg : Segment) (i : nat) :
  selects e (flipKeep seg) i = selects e seg i.
Proof. destruct e; reflexivity. Qed.

Lemma applyEdit_nth_error (es : EditorState) (e : Edit) (i : nat) :
  nth_error (segments (applyEdit es e)) i
  = option_map (fun seg => if selects e seg i then flipKeep seg else seg)
               (nth_error (segments es) i).
Proof.
  destruct e as [index|a b]; cbn.
  - apply toggleSegment_list_nth_error.
  - apply toggleWordRange_list_nth_error.
Qed.

Lemma parity_from (edits : list Edit) (seg : Segment) (i : nat) (acc : bool) :
  fold_left (fun acc e => xorb acc (selects e seg i)) edits acc
  = xorb acc (oddlySelected edits seg i).
Proof.
  unfold oddlySelected. revert acc.
  induction edits as [|e r IH]; intros acc; cbn.
  - now rewrite xorb_false_r.
  - rewrite IH, (IH (selects e seg i)). now rewrite xorb_assoc.
Qed.

Lemma oddlySelected_flipKeep (edits : list Edit) (seg : Segment) (i : nat) :
  oddlySelected edits (flipKeep seg) i = oddlySelected edits seg i.
Proof.
  unfold oddlySelected. generalize false.
  induction edits as [|e r IH]; intros acc; cbn; [reflexivity|].
  now rewrite selects_flipKeep, IH.
Qed.

Lemma oddlySelected_cons (e : Edit) (edits : list Edit) (seg : Segment) (i : nat) :
  oddlySelected (e :: edits) seg i
  = xorb (selects e seg i) (oddlySelected edits seg i).
Proof. unfold oddlySelected at 1. cbn. apply parity_from. Qed.

Lemma applyEdits_nth_error (edits : list Edit) (es : EditorState) (i : nat) :
  nth_error (segments (applyEdits edits es)) i
  = option_map (fun seg => if oddlySelected edits seg i then flipKeep seg else seg)
               (nth_error (segments es) i).
Proof.
  unfold applyEdits. revert es.
  induction edits as [|e r IH]; intros es; cbn [fold_left].
  - now destruct (nth_error (segments es) i).
  - rewrite IH, applyEdit_nth_error.
    destruct (nth_error (segments es) i) as [seg|]; cbn [option_map]; [|reflexivity].
    f_equal. rewrite oddlySelected_cons.
    destruct (selects e seg i); cbn [xorb].
    + rewrite oddlySelected_flipKeep.
      destruct (oddlySelected r seg i); cbn [negb];
        [apply flipKeep_involutive|reflexivity].
    + now destruct (oddlySelected r seg i).
Qed.

(** X17. After any sequence of edits a segment has its [keep] flipped
    exactly when an odd number of the edits selected it (a toggle selects
    the segment at its index, a toggleRange the segments inside its range);
    otherwise it is as it was. *)
Theorem edits_flip_by_parity (edits : list Edit) (es : EditorState) (i : nat) :
  nth_error (segments (applyEdits edits es)) i
  = option_map (fun seg => if oddlySelected edits seg i then flipKeep seg else seg)
               (nth_error (segments es) i).
Proof. apply applyEdits_nth_error. Qed.

Lemma oddlySelected_perm (edits edits' : list Edit) (seg : Segment) (i : nat) :
  Permutation edits edits' ->
  oddlySelected edits seg i = oddlySelected edits' seg i.
Proof.
  unfold oddlySelected. intros Hp. generalize false.
  induction Hp as [|e l l' _ IH|e1 e2 l|l l' l'' _ IH1 _ IH2]; intros acc; cbn.
  - reflexivity.
  - apply IH.
  - f_equal. rewrite !xorb_assoc. f_equal. apply xorb_comm.
  - now rewrite IH1.
Qed.

Lemma applyEdits_other_fields (edits : list Edit) (es : EditorState) :
  applyEdits edits es = setSegments (fun _ => segments (applyEdits edits es)) es.
Proof.
  unfold applyEdits. revert es.
  induction edits as [|e r IH]; intros es; cbn.
  - now destruct es.
  - rewrite IH at 1. now destruct e.
Qed.

(** X18. The order of edits does not matter: two sequences holding the
    same edits, in any order, lead from the same editor state to the same
    editor state. *)
Theorem order_of_edits_does_not_matter
    (edits edits' : list Edit) (es : EditorState) :
  Permutation edits edits' -> applyEdits edits es = applyEdits edits' es.
Proof.
  intros Hp.
  rewrite (applyEdits_other_fields edits), (applyEdits_other_fields edits').
  unfold setSegments. f_equal.
  apply nth_error_ext. intros i.
  rewrite !applyEdits_nth_error.
  destruct (nth_error (segments es) i) as [seg|]; cbn; [|reflexivity].
  now rewrite (oddlySelected_perm edits edits' seg i Hp).
Qed.

Lemma order_of_edits_does_not_matter_witness :
  applyEdits [toggle 1; toggleRange 0 6] (mountEditor tenSeconds)
  = applyEdits [toggleRange 0 6; toggle 1] (mountEditor tenSeconds).
Proof.
  apply order_of_edits_does_not_matter. apply perm_swap.
Defined.

(* ================================================================== *)
(** ** What the workflow keeps *)
(* ================================================================== *)

Lemma coherent_initial : coherent initialWorld.
Proof. cbn. split; reflexivity. Qed.

Lemma inEditor_coherent (f : ProjectData -> EditorState -> EditorState) (w : World) :
  (forall pd es, map frame (segments es) = map frame (JS.or_array (pd_segments pd)) ->
     map frame (segments (f pd es)) = map frame (JS.or_array (pd_segments pd))) ->
  coherent w -> coherent (inEditor f w).
Proof.
  intros Hf Hc. unfold inEditor.
  destruct (editorScreen w) as [es|] eqn:Hed; [|exact Hc].
  destruct (projectData (app w)) as [pd|] eqn:Hpd; [|exact Hc].
  unfold coherent in *. cbn.
  destruct (screen (app w)); try exact Hc.
  - destruct Hc as [Hn _]. congruence.
  - destruct Hc as (id & pd' & es' & Hid & Hpd' & Hes' & Hfr).
    assert (pd' = pd) by congruence. assert (es' = es) by congruence. subst.
    exists id, pd, (f pd es). repeat split; try assumption. now apply Hf.
Qed.

Lemma step_coherent (w : World) (ev : Event) : coherent w -> coherent (step w ev).
Proof.
  intros Hc. destruct ev as [files thr up an|e|time| |upd ex| |]; cbn.
  - destruct (screen (app w)) eqn:Hscr; try exact Hc.
    destruct files as [|file files]; [exact Hc|].
    unfold coherent in Hc. rewrite Hscr in Hc. destruct Hc as [Hpd Hed].
    unfold coherent, handleUpload, commit, render.
    destruct up as [u|err]; [destruct an as [pd|err]|]; cbn;
      rewrite ?Hpd, ?Hed; cbn.
    + exists (project_id u), pd, (mountEditor pd). repeat split.
    + split; reflexivity.
    + split; reflexivity.
  - apply inEditor_coherent; [|exact Hc]. intros pd es Hfr.
    now rewrite applyEdit_frame.
  - apply inEditor_coherent; [|exact Hc]. intros pd es Hfr.
    unfold seekTo. now destruct (videoRef es).
  - apply inEditor_coherent; [|exact Hc]. intros pd es Hfr. reflexivity.
  - destruct (editorScreen w) as [es|] eqn:Hed; [|exact Hc].
    unfold coherent in Hc.
    destruct (screen (app w)) eqn:Hscr; [destruct Hc as [_ Hn]; congruence|contradiction|].
    destruct Hc as (id & pd & es' & Hid & Hpd & Hes' & Hfr).
    unfold coherent, handleExport, commit, render.
    destruct upd as [u|err]; [destruct ex as [r|err]|]; cbn;
      rewrite ?Hpd, ?Hid; cbn.
    + split; reflexivity.
    + exists id, pd, (mountEditor pd). repeat split.
    + exists id, pd, (mountEditor pd). repeat split.
  - destruct (editorScreen w); [|exact Hc]. cbn. split; reflexivity.
  - destruct (error (app w)); [|exact Hc].
    unfold coherent, dismissError, commit, render in *. cbn.
    destruct (screen (app w)); [| |].
    + destruct Hc as [Hpd _]. cbn. split; [exact Hpd|reflexivity].
    + exact Hc.
    + destruct Hc as (id & pd & es & Hid & Hpd & Hed & Hfr). rewrite Hpd, Hed.
      exists id, pd, es. repeat split; assumption.
Qed.

Lemma reachable_coherent (w : World) : reachable w -> coherent w.
Proof.
  intros [evs ->]. unfold run.
  pose proof coherent_initial as H. revert H. generalize initialWorld.
  induction evs as [|ev r IH]; intros w H; cbn; [exact H|].
  apply IH, step_coherent, H.
Qed.

(** X19. In every reachable world that shows the editor, App holds a
    project identifier and the analysis result, an editor is mounted, and
    the segments of that editor have the number, order, boundaries,
    silence flags and texts of the analysis result, whatever edits, resets,
    seeks and failed exports came before. *)
Theorem editing_holds_the_analysed_project (w : World) :
  reachable w -> workflowState w = Editing ->
  exists id pd es,
    projectId (app w) = Some id /\
    projectData (app w) = Some pd /\
    editorScreen w = Some es /\
    map frame (segments es) = map frame (JS.or_array (pd_segments pd)).
Proof.
  intros Hr He. apply reachable_coherent in Hr.
  unfold coherent, workflowState in *.
  destruct (screen (app w)); try discriminate He. exact Hr.
Qed.

Lemma editing_holds_the_analysed_project_witness :
  exists id pd es,
    projectId (app editedWorld) = Some id /\
    projectData (app editedWorld) = Some pd /\
    editorScreen editedWorld = Some es /\
    map frame (segments es) = map frame (JS.or_array (pd_segments pd)).
Proof.
  apply editing_holds_the_analysed_project.
  - eexists. reflexivity.
  - reflexivity.
Defined.

Lemma idle_holds_no_project_data_witness :
  projectData (app (step initialWorld
                      (submit ["clip.mp4"%string] 1%float
                              (resolved {| project_id := "p1"%string |})
                              (rejected networkError)))) = None /\
  editorScreen (step initialWorld
                  (submit ["clip.mp4"%string] 1%float
                          (resolved {| project_id := "p1"%string |})
                          (rejected networkError))) = None.
Proof.
  apply idle_holds_no_project_data.
  - exists [submit ["clip.mp4"%string] 1%float
                   (resolved {| project_id := "p1"%string |})
                   (rejected networkError)].
    reflexivity.
  - reflexivity.
Defined.

Lemma reachable_detached_witness : detached editedWorld.
Proof. apply reachable_detached. eexists. reflexivity. Defined.

Lemma commit_error (a : AppState) (w : World) : error (app (commit a w)) = error a.
Proof. reflexivity. Qed.

Lemma step_errorShown (w : World) (ev : Event) : errorShown w -> errorShown (step w ev).
Proof.
  unfold errorShown. intros H.
  destruct ev as [files thr up an|e|time| |upd ex| |]; cbn.
  - destruct (screen (app w)); try exact H.
    destruct files; [exact H|].
    unfold handleUpload.
    destruct up as [u|err]; [destruct an as [pd|err]|]; cbn; intros msg Hm;
      try discriminate Hm; injection Hm as <-;
      apply errorMessage_not_empty; discriminate.
  - unfold inEditor. destruct (editorScreen w); [|exact H].
    destruct (projectData (app w)); exact H.
  - unfold inEditor. destruct (editorScreen w); [|exact H].
    destruct (projectData (app w)); exact H.
  - unfold inEditor. destruct (editorScreen w); [|exact H].
    destruct (projectData (app w)); exact H.
  - destruct (editorScreen w); [|exact H].
    unfold handleExport.
    destruct upd as [u|err]; [destruct ex as [r|err]|]; cbn; intros msg Hm;
      try discriminate Hm; injection Hm as <-;
      apply errorMessage_not_empty; discriminate.
  - destruct (editorScreen w); [|exact H]. cbn. intros msg Hm. discriminate Hm.
  - destruct (error (app w)) eqn:He; [|now rewrite He].
    cbn. intros msg Hm. discriminate Hm.
Qed.

(** X20. In every reachable world a failure message that App holds is not
    empty, whatever the rejection carried (a detail, a message, both empty
    or neither): the banner, which is rendered when the message is truthy,
    is shown whenever a failure is held. *)
Theorem held_error_is_never_empty (w : World) (msg : string) :
  reachable w -> error (app w) = Some msg -> msg <> EmptyString.
Proof.
  intros [evs ->]. revert msg. change (errorShown (run evs initialWorld)).
  unfold run.
  assert (H : errorShown initialWorld) by (intros msg Hm; discriminate Hm).
  revert H. generalize initialWorld.
  induction evs as [|ev r IH]; intros w H; cbn; [exact H|].
  apply IH, step_errorShown, H.
Qed.

Lemma held_error_is_never_empty_witness :
  "Upload failed"%string <> EmptyString.
Proof.
  apply (held_error_is_never_empty
           (step initialWorld
              (submit ["clip.mp4"%string] 1%float
                      (rejected {| detail := Some EmptyString; message := None |})
                      (rejected networkError)))
           "Upload failed"%string).
  - exists [submit ["clip.mp4"%string] 1%float
                   (rejected {| detail := Some EmptyString; message := None |})
                   (rejected networkError)].
    reflexivity.
  - reflexivity.
Defined.

(** X21. Dismissing the banner changes nothing but the message: in every
    reachable world, after Dismiss no message is held and the screen, the
    project identifier, the analysis result and the mounted editor with
    all its edits are as before. *)
Theorem dismiss_only_clears_the_message (w : World) :
  reachable w ->
  error (app (step w dismiss)) = None /\
  screen (app (step w dismiss)) = screen (app w) /\
  projectId (app (step w dismiss)) = projectId (app w) /\
  projectData (app (step w dismiss)) = projectData (app w) /\
  editorScreen (step w dismiss) = editorScreen w.
Proof.
  intros Hr. apply reachable_settled in Hr. cbn.
  destruct (error (app w)) eqn:He; [|repeat split; exact He].
  unfold dismissError, commit, render. cbn. repeat split.
  unfold settled in Hr.
  destruct (screen (app w)).
  - now destruct Hr as [_ ->].
  - contradiction.
  - destruct Hr as (pd & es & Hpd & Hed). now rewrite Hpd, Hed.
Qed.

Lemma dismiss_only_clears_the_message_witness :
  let w := step editedWorld (export (resolved tt) (rejected networkError)) in
  error (app w) = Some "Network Error"%string /\
  error (app (step w dismiss)) = None /\
  editorScreen (step w dismiss) = editorScreen w.
Proof.
  cbv zeta. split; [reflexivity|].
  pose proof (dismiss_only_clears_the_message
                (step editedWorld (export (resolved tt) (rejected networkError))))
    as H.
  destruct H as (H1 & _ & _ & _ & H5).
  - exists [submit ["clip.mp4"%string] 1%float
                   (resolved {| project_id := "p1"%string |}) (resolved tenSeconds);
            edit (toggle 1);
            export (resolved tt) (rejected networkError)].
    reflexivity.
  - split; assumption.
Defined.

(** X22. EditorScreen renders no media element, so in every reachable
    world the ref of the mounted editor is empty and its currentTime is 0:
    a seek, whether it comes from a click on the timeline, from a row of
    the segment list or from a tap on a word, leaves the editor and the
    whole world exactly as they were. *)
Theorem seek_changes_nothing_in_the_app (w : World) (es : EditorState) :
  reachable w -> editorScreen w = Some es ->
  videoRef es = None /\
  currentTime es = 0%float /\
  (forall time, seekTo time es = es) /\
  (forall time, step w (seek time) = w) /\
  (forall pd timelineRef scale clientX,
     timelineClick pd timelineRef scale clientX es = es).
Proof.
  intros Hr Hed. apply reachable_detached in Hr.
  unfold detached in Hr. rewrite Hed in Hr. destruct Hr as [Hv Hc].
  assert (Hseek : forall time, seekTo time es = es)
    by (intros time; now apply seekTo_detached).
  repeat split; try assumption.
  - intros time. cbn. unfold inEditor. rewrite Hed.
    destruct (projectData (app w)); [|reflexivity].
    rewrite Hseek. destruct w. cbn in *. now rewrite Hed.
  - intros pd timelineRef scale clientX. unfold timelineClick.
    now destruct (handleTimelineClick _ _ _ _).
Qed.

Lemma seek_changes_nothing_in_the_app_witness :
  step editedWorld (seek 5) = editedWorld.
Proof.
  pose proof (seek_changes_nothing_in_the_app editedWorld
                {| segments := [segment 0 4 true false; segment 4 6 false true;
                                segment 6 10 true false];
                   currentTime := 0; isPlaying := false;
                   activeTab := timeline; videoRef := None |}) as H.
  destruct H as (_ & _ & _ & H & _).
  - eexists. reflexivity.
  - reflexivity.
  - apply H.
Defined.
